(** * binarytree/node.py: nodes, path insertion, search, deletion, documents

    A shallow embedding of [src/binarytree_package/src/binarytree/node.py].

    Python [Node] objects are mutable and shared: [node.left] and
    [node.children[0]] may be one and the same object.  The embedding
    therefore keeps an explicit store ([heap]) of node records addressed
    by natural numbers; a Python reference is an address, [None] is
    [None : option addr].  Every function of the module becomes a
    computation in a small state-and-exception monad over that store. *)

From Stdlib Require Import ZArith String Ascii.
From stdpp Require Import base tactics option list.

Set Warnings "-register-all".

(** ** Python values *)

(** The values stored in nodes and the documents handled by the codec are
    plain Python objects.  The embedding covers [None], [int], [str] and
    [dict] with string keys (a dict keeps its keys in insertion order). *)
Inductive pyobj : Type :=
| PyNone
| PyInt (z : Z)
| PyStr (s : string)
| PyDict (items : list (string * pyobj)).

Section DictLookup.
Context {A : Type} (key : string) (present : pyobj -> A) (missing : A).

(** [present d[key]] when [key in d], [missing] otherwise. *)
Fixpoint dict_case (items : list (string * pyobj)) : A :=
  match items with
  | [] => missing
  | (k, v) :: rest => if String.eqb k key then present v else dict_case rest
  end.

End DictLookup.

(** [d.get(key)] *)
Definition dict_get (key : string) (items : list (string * pyobj)) : option pyobj :=
  dict_case key Some None items.

(** [d[key] = v]: overwrite in place, or add the key at the end. *)
Fixpoint dict_set (key : string) (v : pyobj) (items : list (string * pyobj))
  : list (string * pyobj) :=
  match items with
  | [] => [(key, v)]
  | (k, w) :: rest =>
      if String.eqb k key then (k, v) :: rest else (k, w) :: dict_set key v rest
  end.

(** Python's [==] on the embedded values.  Two dicts are equal when they
    have the same number of keys and equal values under every key. *)
Fixpoint py_eq (a b : pyobj) : bool :=
  match a, b with
  | PyNone, PyNone => true
  | PyInt x, PyInt y => Z.eqb x y
  | PyStr s, PyStr t => String.eqb s t
  | PyDict xs, PyDict ys =>
      Nat.eqb (length xs) (length ys) &&
      (fix every (l : list (string * pyobj)) : bool :=
         match l with
         | [] => true
         | (k, v) :: rest =>
             dict_case k (fun w => py_eq v w) false ys && every rest
         end) xs
  | _, _ => false
  end.

(** ** Nodes and the store *)

(** A reference to a node object. *)
Abbreviation addr := nat (only parsing).

(** [class Node]: [value], [left], [right], [children].  A slot of
    [children] can hold [None] (the placeholder of [add_node_by_path]). *)
Record Node : Type := mkNode {
  value : pyobj;
  left : option addr;
  right : option addr;
  children : list (option addr)
}.

(** The store: the node objects allocated so far, by address. *)
Abbreviation heap := (list Node) (only parsing).

(** [Node.__init__] *)
Definition Node_init (v : pyobj) : Node :=
  {| value := v; left := None; right := None; children := [] |}.

Definition with_value (n : Node) (v : pyobj) : Node :=
  {| value := v; left := left n; right := right n; children := children n |}.
Definition with_left (n : Node) (l : option addr) : Node :=
  {| value := value n; left := l; right := right n; children := children n |}.
Definition with_right (n : Node) (r : option addr) : Node :=
  {| value := value n; left := left n; right := r; children := children n |}.
Definition with_children (n : Node) (cs : list (option addr)) : Node :=
  {| value := value n; left := left n; right := right n; children := cs |}.

(** ** Exceptions and outcomes *)

(** Every [raise] of the module is a [ValueError]; they differ by message. *)
Inductive message : Type :=
| NullRoot                               (* "Cannot add node to None root" *)
| EmptyPath                              (* "Path cannot be empty" *)
| InvalidPathIndex (token : string)      (* "Invalid path index: ..." *)
| ChildMissing (idx : Z)                 (* "Child at index ... does not exist" *)
| IndexOutOfRange (idx : Z) (use : nat)  (* "Index ... out of range. Use ..." *)
| PathBrokenLeft                         (* "...: left child does not exist" *)
| PathBrokenRight                        (* "...: right child does not exist" *)
| InvalidDirection (c : ascii)           (* "Invalid direction ..." *)
| NodeExists.                            (* "Node already exists at path ..." *)

Inductive exn : Type :=
| ValueError (m : message)
| AttributeError                         (* attribute access on None *)
| IndexError.                            (* list index out of range *)

(** How a call ends: it returns, it raises, or the model leaves Python
    ([Stuck]: an address that was never allocated; [OutOfFuel]: the bound
    on loop iterations or on the recursion depth is used up).  The store
    at the exit is part of a return and of a raise. *)
Inductive outcome (A : Type) : Type :=
| Return (a : A) (h : heap)
| Raise (e : exn) (h : heap)
| Stuck
| OutOfFuel.
Arguments Return {A} a h.
Arguments Raise {A} e h.
Arguments Stuck {A}.
Arguments OutOfFuel {A}.

Definition M (A : Type) : Type := heap -> outcome A.

Definition retM {A} (a : A) : M A := fun h => Return a h.
Definition bindM {A B} (c : M A) (k : A -> M B) : M B :=
  fun h =>
    match c h with
    | Return a h' => k a h'
    | Raise e h' => Raise e h'
    | Stuck => Stuck
    | OutOfFuel => OutOfFuel
    end.
Definition raise {A} (e : exn) : M A := fun h => Raise e h.
Definition out_of_fuel {A} : M A := fun _ => OutOfFuel.

Notation "'let!' x ':=' c 'in' k" := (bindM c (fun x => k))
  (at level 10, x name, c at level 100, k at level 200).
Notation "c ';;;' k" := (bindM c (fun _ => k))
  (at level 100, k at level 200, right associativity).

(** Read the object behind a reference. *)
Definition get_node (a : addr) : M Node :=
  fun h => match h !! a with Some n => Return n h | None => Stuck end.

(** Attribute access on something that may be [None]. *)
Definition attr (o : option addr) : M Node :=
  match o with
  | Some a => get_node a
  | None => raise AttributeError
  end.

Definition put_node (a : addr) (n : Node) : M unit :=
  fun h => Return tt (<[a := n]> h).

(** [Node(value)]: a fresh object. *)
Definition new_Node (v : pyobj) : M addr :=
  fun h => Return (length h) (h ++ [Node_init v]).

Definition set_value (a : addr) (v : pyobj) : M unit :=
  let! n := get_node a in put_node a (with_value n v).
Definition set_left (a : addr) (l : option addr) : M unit :=
  let! n := get_node a in put_node a (with_left n l).
Definition set_right (a : addr) (r : option addr) : M unit :=
  let! n := get_node a in put_node a (with_right n r).
Definition set_children (a : addr) (cs : list (option addr)) : M unit :=
  let! n := get_node a in put_node a (with_children n cs).

(** [self.children.append(child)] *)
Definition children_append (a : addr) (child : option addr) : M unit :=
  let! n := get_node a in set_children a (children n ++ [child]).

(** ** Strings: [upper], [split], [int] *)

(** [c.upper()] of one character.  Exact on ASCII; outside ASCII Python's
    result is never ['L'] or ['R'], and neither is the character itself. *)
Definition upper (c : ascii) : ascii :=
  let n := nat_of_ascii c in
  if Nat.leb 97 n && Nat.leb n 122 then ascii_of_nat (n - 32) else c.

(** [s.split(sep)] for a one-character separator: never an empty list. *)
Fixpoint split (sep : ascii) (s : string) : list string :=
  match s with
  | EmptyString => [EmptyString]
  | String c s' =>
      if Ascii.eqb c sep then EmptyString :: split sep s'
      else match split sep s' with
           | t :: ts => String c t :: ts
           | [] => [String c EmptyString]
           end
  end.

(** Whitespace that [int] strips, for code points below 256: tab to
    carriage return, space, U+0085 and U+00A0.  (U+001C to U+001F are
    whitespace for [str.isspace] but [int] does not strip them.) *)
Definition is_space (c : ascii) : bool :=
  let n := nat_of_ascii c in
  (Nat.leb 9 n && Nat.leb n 13) || Nat.eqb n 32
  || Nat.eqb n 133 || Nat.eqb n 160.

Fixpoint lstrip (s : list ascii) : list ascii :=
  match s with
  | c :: s' => if is_space c then lstrip s' else s
  | [] => []
  end.

Definition strip (s : list ascii) : list ascii := rev (lstrip (rev (lstrip s))).

Definition digit (c : ascii) : option Z :=
  let n := nat_of_ascii c in
  if Nat.leb 48 n && Nat.leb n 57 then Some (Z.of_nat (n - 48)) else None.

(** Decimal digits, where single underscores may sit between two digits. *)
Fixpoint digits (acc : Z) (after_digit : bool) (s : list ascii) : option Z :=
  match s with
  | [] => if after_digit then Some acc else None
  | c :: s' =>
      if Ascii.eqb c "_"%char then
        if after_digit then digits acc false s' else None
      else
        match digit c with
        | Some d => digits (10 * acc + d)%Z true s'
        | None => None
        end
  end.

Definition is_digit (c : ascii) : bool :=
  match digit c with Some _ => true | None => false end.

(** CPython's default bound on the number of digits [int] converts
    ([sys.int_info.default_max_str_digits]); leading zeros count,
    underscores, sign and whitespace do not. *)
Definition int_max_str_digits : Z := 4300.

(** The digits after the sign: refused when there are too many. *)
Definition bounded_digits (ds : list ascii) : option Z :=
  if (int_max_str_digits <? Z.of_nat (length (List.filter is_digit ds)))%Z
  then None
  else digits 0 false ds.

(** [int(s)] in base 10, for a [str] of code points below 256; [None]
    stands for the [ValueError] it raises. *)
Definition int (s : string) : option Z :=
  match strip (list_ascii_of_string s) with
  | "+"%char :: ds => bounded_digits ds
  | "-"%char :: ds => Z.opp <$> bounded_digits ds
  | ds => bounded_digits ds
  end.

(** [l[i]] with Python's negative indices. *)
Definition getitem {A} (l : list A) (i : Z) : option A :=
  if (i <? 0)%Z then
    if (i + Z.of_nat (length l) <? 0)%Z then None
    else l !! Z.to_nat (i + Z.of_nat (length l))
  else l !! Z.to_nat i.

(** ** [Node.add_child] and [create_tree] *)

Definition add_child (self child : addr) : M unit :=
  children_append self (Some child) ;;;
  let! n := get_node self in
  if Nat.eqb (length (children n)) 1 then set_left self (Some child)
  else if Nat.eqb (length (children n)) 2 then set_right self (Some child)
  else retM tt.

Definition create_tree (v : pyobj) : M addr := new_Node v.

(** ** [add_node_by_path] *)

(** The loop [for idx_str in indices[:-1]] of the general mode. *)
Fixpoint walk_indices (indices : list string) (current : option addr)
  : M (option addr) :=
  match indices with
  | [] => retM current
  | idx_str :: rest =>
      match int idx_str with
      | None => raise (ValueError (InvalidPathIndex idx_str))
      | Some idx =>
          let! n := attr current in
          if (idx >=? Z.of_nat (length (children n)))%Z
          then raise (ValueError (ChildMissing idx))
          else match getitem (children n) idx with
               | Some child => walk_indices rest child
               | None => raise IndexError
               end
      end
  end.

(** The loop [for direction in path[:-1]] of the binary mode. *)
Fixpoint walk_directions (directions : list ascii) (current : addr) : M addr :=
  match directions with
  | [] => retM current
  | direction :: rest =>
      if Ascii.eqb (upper direction) "L" then
        let! n := get_node current in
        match left n with
        | None => raise (ValueError PathBrokenLeft)
        | Some l => walk_directions rest l
        end
      else if Ascii.eqb (upper direction) "R" then
        let! n := get_node current in
        match right n with
        | None => raise (ValueError PathBrokenRight)
        | Some r => walk_directions rest r
        end
      else raise (ValueError (InvalidDirection direction))
  end.

(** General mode, after the walk: parse the last index, build the node,
    attach it only at the append position. *)
Definition attach_general (current : option addr) (last_idx : string)
  (v : pyobj) : M unit :=
  match int last_idx with
  | None => raise (ValueError (InvalidPathIndex last_idx))
  | Some final_idx =>
      let! new_node := new_Node v in
      let! n := attr current in
      if (final_idx =? Z.of_nat (length (children n)))%Z then
        match current with
        | Some c => add_child c new_node
        | None => raise AttributeError
        end
      else raise (ValueError (IndexOutOfRange final_idx (length (children n))))
  end.

(** Binary mode, after the walk: the final [L] or [R]. *)
Definition attach_binary (current : addr) (last_direction : ascii)
  (v : pyobj) : M unit :=
  if Ascii.eqb last_direction "L" then
    let! n := get_node current in
    match left n with
    | Some _ => raise (ValueError NodeExists)
    | None =>
        let! fresh := new_Node v in
        set_left current (Some fresh) ;;;
        children_append current (Some fresh)
    end
  else if Ascii.eqb last_direction "R" then
    let! n := get_node current in
    match right n with
    | Some _ => raise (ValueError NodeExists)
    | None =>
        let! fresh := new_Node v in
        set_right current (Some fresh) ;;;
        let! n' := get_node current in
        (if Nat.eqb (length (children n')) 0
         then children_append current None
         else retM tt) ;;;
        children_append current (Some fresh)
    end
  else raise (ValueError (InvalidDirection last_direction)).

Definition add_node_by_path (root : option addr) (path : string)
  (v : pyobj) (is_general : bool) : M (option addr) :=
  match root with
  | None => raise (ValueError NullRoot)
  | Some r =>
      if String.eqb path "" then raise (ValueError EmptyPath)
      else if is_general then
        let indices := split "-" path in
        let! current := walk_indices (removelast indices) root in
        attach_general current (List.last indices ""%string) v ;;;
        retM root
      else
        let chars := list_ascii_of_string path in
        let! current := walk_directions (removelast chars) r in
        attach_binary current (upper (List.last chars "000"%char)) v ;;;
        retM root
  end.

(** ** [find_node] and [edit_node] *)

(** [if x: queue.append(x)] *)
Definition if_present {A} (o : option A) : list A :=
  match o with Some a => [a] | None => [] end.

(** The [while queue] loop; [fuel] bounds the number of iterations. *)
Fixpoint find_loop (fuel : nat) (queue : list (option addr)) (v : pyobj)
  : M (option addr) :=
  match queue with
  | [] => retM None
  | current :: queue =>
      match fuel with
      | O => out_of_fuel
      | S fuel =>
          let! n := attr current in
          if py_eq (value n) v then retM current
          else if Nat.ltb 0 (length (children n))
          then find_loop fuel (queue ++ children n) v
          else find_loop fuel
                 (queue ++ (Some <$> if_present (left n))
                        ++ (Some <$> if_present (right n))) v
      end
  end.

Definition find_node (fuel : nat) (root : option addr) (v : pyobj)
  : M (option addr) :=
  match root with
  | None => retM None
  | Some _ => find_loop fuel [root] v
  end.

Definition edit_node (fuel : nat) (root : option addr) (old_value new_value : pyobj)
  : M bool :=
  let! node := find_node fuel root old_value in
  match node with
  | Some a => set_value a new_value ;;; retM true
  | None => retM false
  end.

(** ** [delete_node] *)

(** Result of [for i, child in enumerate(current.children)]: the index
    of the first child holding the value, or the children that went to
    the queue. *)
Inductive scan : Type :=
| Hit (i : nat)
| Miss (queued : list addr).

Fixpoint scan_children (cs : list (option addr)) (i : nat) (v : pyobj)
  (queued : list addr) : M scan :=
  match cs with
  | [] => retM (Miss queued)
  | None :: _ => raise AttributeError
  | Some child :: rest =>
      let! c := get_node child in
      if py_eq (value c) v then retM (Hit i)
      else scan_children rest (S i) v (queued ++ [child])
  end.

(** [current.children.pop(i)] and the update of [left] and [right]. *)
Definition unlink_child (current : addr) (i : nat) : M unit :=
  let! n := get_node current in
  let cs := delete i (children n) in
  set_children current cs ;;;
  (if Nat.eqb i 0 && Nat.leb 1 (length cs) then
     match cs !! 0%nat with
     | Some c => set_left current c
     | None => raise IndexError
     end
   else if Nat.eqb i 0 then set_left current None
   else retM tt) ;;;
  (if Nat.leb i 1 && Nat.leb 2 (length cs) then
     match cs !! 1%nat with
     | Some c => set_right current c
     | None => raise IndexError
     end
   else if Nat.eqb i 1 then set_right current None
   else retM tt).

(** [x and x.value == value] *)
Definition holds_value (x : option addr) (v : pyobj) : M bool :=
  match x with
  | None => retM false
  | Some a => let! c := get_node a in retM (py_eq (value c) v)
  end.

Fixpoint delete_loop (fuel : nat) (root : addr) (queue : list addr) (v : pyobj)
  : M (option addr) :=
  match queue with
  | [] => retM (Some root)
  | current :: queue =>
      match fuel with
      | O => out_of_fuel
      | S fuel =>
          let! n := get_node current in
          let! s := scan_children (children n) 0 v [] in
          match s with
          | Hit i => unlink_child current i ;;; retM (Some root)
          | Miss queued =>
              if Nat.eqb (length (children n)) 0 then
                let! l_hit := holds_value (left n) v in
                if l_hit then set_left current None ;;; retM (Some root)
                else
                  let! r_hit := holds_value (right n) v in
                  if r_hit then set_right current None ;;; retM (Some root)
                  else delete_loop fuel root
                         (queue ++ queued ++ if_present (left n)
                                ++ if_present (right n)) v
              else delete_loop fuel root (queue ++ queued) v
          end
      end
  end.

Definition delete_node (fuel : nat) (root : option addr) (v : pyobj)
  : M (option addr) :=
  match root with
  | None => retM None
  | Some r =>
      let! n := get_node r in
      if py_eq (value n) v then retM None
      else delete_loop fuel r [r] v
  end.

(** ** The document codec: [_dict_to_tree] and [_tree_to_dict] *)

(** A document that is [None], not a dict, or a dict without ['value']
    gives [None]. *)
Fixpoint _dict_to_tree (tree_dict : pyobj) : M (option addr) :=
  match tree_dict with
  | PyDict items =>
      dict_case "value"
        (fun v =>
           let! root := new_Node v in
           dict_case "left"
             (fun l => let! t := _dict_to_tree l in set_left root t)
             (retM tt) items ;;;
           dict_case "right"
             (fun r => let! t := _dict_to_tree r in set_right root t)
             (retM tt) items ;;;
           retM (Some root))
        (retM None) items
  | _ => retM None
  end.

(** [depth] bounds the depth of the recursion. *)
Fixpoint _tree_to_dict (depth : nat) (root : option addr) : M pyobj :=
  match root with
  | None => retM PyNone
  | Some a =>
      match depth with
      | O => out_of_fuel
      | S depth =>
          let! n := get_node a in
          let tree_dict := [("value"%string, value n)] in
          let! tree_dict :=
            match left n with
            | Some _ =>
                let! l := _tree_to_dict depth (left n) in
                retM (dict_set "left" l tree_dict)
            | None => retM tree_dict
            end in
          let! tree_dict :=
            match right n with
            | Some _ =>
                let! r := _tree_to_dict depth (right n) in
                retM (dict_set "right" r tree_dict)
            | None => retM tree_dict
            end in
          retM (PyDict tree_dict)
      end
  end.

(** ** Vocabulary of the statements *)

(** The store a call leaves behind is the store it started from. *)
Definition same_store {A} (h : heap) (o : outcome A) : Prop :=
  match o with
  | Return _ h' | Raise _ h' => h' = h
  | Stuck | OutOfFuel => True
  end.

(** A walk only reads [left] and [right] links that are set, so it takes
    the same route in any store that keeps those links. *)
Definition keeps_links (h h1 : heap) : Prop :=
  forall a n, h !! a = Some n ->
    exists n1, h1 !! a = Some n1 /\
      (left n <> None -> left n1 = left n) /\
      (right n <> None -> right n1 = right n).

(** ** Concrete trees used in the statements *)

(** The store a program leaves when started from the empty store. *)
Definition store_after {A} (c : M A) : heap :=
  match c [] with
  | Return _ h | Raise _ h => h
  | Stuck | OutOfFuel => []
  end.

(** [root = Node(1)], then ["L"] gets 2 and ["R"] gets 3. *)
Definition small_tree : M nat :=
  let! root := create_tree (PyInt 1) in
  add_node_by_path (Some root) "L" (PyInt 2) false ;;;
  add_node_by_path (Some root) "R" (PyInt 3) false ;;;
  retM root.

(** What [add_child] makes of a node that receives the child [c]. *)
Definition with_child (n : Node) (c : nat) : Node :=
  let cs := children n ++ [Some c] in
  {| value := value n;
     left := if Nat.eqb (length cs) 1 then Some c else left n;
     right := if Nat.eqb (length cs) 1 then right n
              else if Nat.eqb (length cs) 2 then Some c else right n;
     children := cs |}.

(** A tree as [_tree_to_dict] sees it: values and shape along [left]
    and [right]. *)
Inductive shape : Type :=
| Shape (v : pyobj) (l r : option shape).

(** The shape under a link: nothing under [None]. *)
Definition below (f : nat -> option shape) (o : option nat)
  : option (option shape) :=
  match o with
  | None => Some None
  | Some c => Some <$> f c
  end.

(** The shape below address [a], when it is at most [depth] levels deep. *)
Fixpoint shape_of (depth : nat) (h : heap) (a : nat) : option shape :=
  match depth with
  | O => None
  | S depth =>
      match h !! a with
      | None => None
      | Some n =>
          match below (shape_of depth h) (left n),
                below (shape_of depth h) (right n) with
          | Some l, Some r => Some (Shape (value n) l r)
          | _, _ => None
          end
      end
  end.

(** The objects [new] sit in the store [H] from address [base] on. *)
Definition holds_at (base : nat) (new H : heap) : Prop :=
  forall i n, new !! i = Some n -> H !! (base + i) = Some n.

(** Exporting a tree of at most [depth] levels and importing the
    document, into any store, gives a tree of the same shape, made of
    new objects only. *)
Definition round_trips (depth : nat) : Prop :=
  forall (h : heap) a t,
    shape_of depth h a = Some t ->
    exists doc,
      _tree_to_dict depth (Some a) h = Return doc h /\
      forall h0 : heap, exists new,
        _dict_to_tree doc h0 = Return (Some (length h0)) (h0 ++ new) /\
        forall H, holds_at (length h0) new H ->
                  shape_of depth H (length h0) = Some t.

(** [root = Node(1)]; ["L"], ["R"], ["LL"], ["LR"] get 2, 3, 4, 5; then
    [edit_node(root, 5, 50)]. *)
Definition binary_scenario : M nat :=
  let! root := create_tree (PyInt 1) in
  add_node_by_path (Some root) "L" (PyInt 2) false ;;;
  add_node_by_path (Some root) "R" (PyInt 3) false ;;;
  add_node_by_path (Some root) "LL" (PyInt 4) false ;;;
  add_node_by_path (Some root) "LR" (PyInt 5) false ;;;
  edit_node 5 (Some root) (PyInt 5) (PyInt 50) ;;;
  retM root.

(** [root = Node(1)]; ["R"] gets 3 before ["L"] gets 2. *)
Definition right_first_tree : M nat :=
  let! root := create_tree (PyInt 1) in
  add_node_by_path (Some root) "R" (PyInt 3) false ;;;
  add_node_by_path (Some root) "L" (PyInt 2) false ;;;
  retM root.

(** [root = Node(1)]; only ["R"] gets 3. *)
Definition right_only_tree : M nat :=
  let! root := create_tree (PyInt 1) in
  add_node_by_path (Some root) "R" (PyInt 3) false ;;;
  retM root.

(** [o.left], [o.right], [o.value] and [o.children] read off a store. *)
Definition left_of (h : heap) (o : option nat) : option nat :=
  a ← o; n ← h !! a; left n.
Definition right_of (h : heap) (o : option nat) : option nat :=
  a ← o; n ← h !! a; right n.
Definition value_of (h : heap) (o : option nat) : option pyobj :=
  a ← o; n ← h !! a; Some (value n).
Definition children_of (h : heap) (o : option nat) : list (option nat) :=
  default [] (a ← o; n ← h !! a; Some (children n)).

(** ** [delete_tree] *)

Section EachChild.
Context (visit : option addr -> M unit) (r : addr).

(** [for child in r.children: visit(child)].  The iterator reads the
    list object as it is at each step, so the loop re-reads
    [r.children] at index [i]; [steps] bounds the iterations. *)
Fixpoint each_child (steps i : nat) : M unit :=
  let! n := get_node r in
  match children n !! i with
  | None => retM tt
  | Some child =>
      match steps with
      | O => out_of_fuel
      | S steps => visit child ;;; each_child steps (S i)
      end
  end.

End EachChild.

(** [fuel] bounds the recursion depth and the iterations of each loop. *)
Fixpoint delete_tree (fuel : nat) (root : option addr) : M unit :=
  match root with
  | None => retM tt
  | Some r =>
      match fuel with
      | O => out_of_fuel
      | S fuel =>
          each_child (delete_tree fuel) r (S fuel) 0 ;;;
          set_children r [] ;;;
          set_left r None ;;;
          set_right r None
      end
  end.

(** A node after [children.clear()], [left = None], [right = None]. *)
Definition cleared (n : Node) : Node :=
  {| value := value n; left := None; right := None; children := [] |}.

(** [left] and [right] are the first two entries of [children] (absent
    where the list is too short or holds [None]). *)
Definition aligned (n : Node) : Prop :=
  left n = mjoin (children n !! 0) /\ right n = mjoin (children n !! 1).

(** [b] is [a] or is reached from [a] through [children] lists. *)
Inductive descends (h : heap) : addr -> addr -> Prop :=
| descends_here a : descends h a a
| descends_child a n c b :
    h !! a = Some n -> Some c ∈ children n -> descends h c b ->
    descends h a b.

(** From [h] to [h']: no object is added or dropped; a node is as it
    was, or it is cleared and so are all the nodes in its old
    [children] list. *)
Definition clears (h h' : heap) : Prop :=
  length h' = length h /\
  forall a n, h !! a = Some n ->
    h' !! a = Some n \/
    (h' !! a = Some (cleared n) /\
     forall c nc, Some c ∈ children n -> h !! c = Some nc ->
                  h' !! c = Some (cleared nc)).


(** ** Vocabulary for [find_node] *)

(** What [find_node] puts in its queue after looking at node [a]: the
    [children] list when it is not empty, else [left] and [right] where
    set. *)
Definition find_next (h : heap) (a : addr) : list (option addr) :=
  match h !! a with
  | None => []
  | Some n =>
      if Nat.ltb 0 (length (children n)) then children n
      else (Some <$> if_present (left n)) ++ (Some <$> if_present (right n))
  end.

(** [b] is [a] or is reached from [a] along [find_next]. *)
Inductive find_reach (h : heap) : addr -> addr -> Prop :=
| find_reach_here a : find_reach h a a
| find_reach_next a c b :
    Some c ∈ find_next h a -> find_reach h c b -> find_reach h a b.


(** Every address held in a [children] list is the address of an
    object of the store (Python has no dangling references). *)
Definition children_allocated (h : heap) : Prop :=
  forall a n c, h !! a = Some n -> Some c ∈ children n -> c < length h.


(** ** The general tree: [GeneralNode] and its functions *)

Module General.

(** [class GeneralNode]: [value] and [children]. *)
Record GeneralNode : Type := mkGeneralNode {
  value : pyobj;
  children : list nat
}.

(** The store of [GeneralNode] objects, by address. *)
Abbreviation store := (list GeneralNode) (only parsing).

(** [GeneralNode.__init__] *)
Definition GeneralNode_init (v : pyobj) : GeneralNode :=
  {| value := v; children := [] |}.

(** The messages of the [ValueError]s raised on general trees. *)
Inductive message : Type :=
| NullRoot                           (* "Cannot add node to None root" *)
| EmptyPath                          (* "Path cannot be empty" *)
| InvalidPathIndex (token : string)  (* "Invalid path index: ..." *)
| ChildMissing (idx : Z)             (* "Child at index ... does not exist" *)
| IndexOutOfRange (idx : Z).         (* "Index ... out of range" *)

Inductive exn : Type :=
| ValueError (m : message)
| IndexError.                        (* list index out of range *)

Inductive outcome (A : Type) : Type :=
| Return (a : A) (s : store)
| Raise (e : exn) (s : store)
| Stuck
| OutOfFuel.
Arguments Return {A} a s.
Arguments Raise {A} e s.
Arguments Stuck {A}.
Arguments OutOfFuel {A}.

Definition M (A : Type) : Type := store -> outcome A.

Definition retM {A} (a : A) : M A := fun s => Return a s.
Definition bindM {A B} (c : M A) (k : A -> M B) : M B :=
  fun s =>
    match c s with
    | Return a s' => k a s'
    | Raise e s' => Raise e s'
    | Stuck => Stuck
    | OutOfFuel => OutOfFuel
    end.
Definition raise {A} (e : exn) : M A := fun s => Raise e s.
Definition out_of_fuel {A} : M A := fun _ => OutOfFuel.

Notation "'do!' x ':=' c 'in' k" := (bindM c (fun x => k))
  (at level 10, x name, c at level 100, k at level 200).
Notation "c ';;!' k" := (bindM c (fun _ => k))
  (at level 100, k at level 200, right associativity).

Definition get_node (a : nat) : M GeneralNode :=
  fun s => match s !! a with Some n => Return n s | None => Stuck end.

Definition set_children (a : nat) (cs : list nat) : M unit :=
  fun s =>
    match s !! a with
    | Some n => Return tt (<[a := {| value := value n; children := cs |}]> s)
    | None => Stuck
    end.

Definition set_value (a : nat) (v : pyobj) : M unit :=
  fun s =>
    match s !! a with
    | Some n => Return tt (<[a := {| value := v; children := children n |}]> s)
    | None => Stuck
    end.

(** [GeneralNode(value)]: a fresh object. *)
Definition new_GeneralNode (v : pyobj) : M nat :=
  fun s => Return (length s) (s ++ [GeneralNode_init v]).

(** [GeneralNode.add_child] *)
Definition add_child (self child : nat) : M unit :=
  do! n := get_node self in set_children self (children n ++ [child]).

Definition create_general_tree (v : pyobj) : M nat := new_GeneralNode v.

(** [l.insert(i, x)]: Python clamps the index to the list. *)
Definition list_insert_at {A} (l : list A) (i : Z) (x : A) : list A :=
  let j := if (i <? 0)%Z
           then Z.to_nat (Z.max 0 (i + Z.of_nat (length l)))
           else Nat.min (Z.to_nat i) (length l) in
  take j l ++ x :: drop j l.

(** The loop [for idx_str in indices[:-1]]. *)
Fixpoint walk_indices (indices : list string) (current : nat) : M nat :=
  match indices with
  | [] => retM current
  | idx_str :: rest =>
      match int idx_str with
      | None => raise (ValueError (InvalidPathIndex idx_str))
      | Some idx =>
          do! n := get_node current in
          if (idx >=? Z.of_nat (length (children n)))%Z
          then raise (ValueError (ChildMissing idx))
          else match getitem (children n) idx with
               | Some child => walk_indices rest child
               | None => raise IndexError
               end
      end
  end.

Definition add_general_node_by_path (root : option nat) (path : string)
  (v : pyobj) : M (option nat) :=
  match root with
  | None => raise (ValueError NullRoot)
  | Some r =>
      if String.eqb path "" then raise (ValueError EmptyPath)
      else
        let indices := split "-" path in
        do! current := walk_indices (removelast indices) r in
        match int (List.last indices ""%string) with
        | None =>
            raise (ValueError (InvalidPathIndex (List.last indices ""%string)))
        | Some final_idx =>
            do! new_node := new_GeneralNode v in
            do! n := get_node current in
            (if (final_idx =? Z.of_nat (length (children n)))%Z then
               set_children current (children n ++ [new_node])
             else if (final_idx <? Z.of_nat (length (children n)))%Z then
               set_children current (list_insert_at (children n) final_idx new_node)
             else raise (ValueError (IndexOutOfRange final_idx))) ;;!
            retM root
        end
  end.

Section FirstFound.
Context (visit : nat -> M (option nat)).

(** [for child in children: result = visit(child); if result: return
    result], then [return None]. *)
Fixpoint first_found (cs : list nat) : M (option nat) :=
  match cs with
  | [] => retM None
  | child :: rest =>
      do! result := visit child in
      match result with
      | Some _ => retM result
      | None => first_found rest
      end
  end.

End FirstFound.

(** [find_general_node]: depth first, the node itself before its
    children; [fuel] bounds the recursion depth. *)
Fixpoint find_general_node (fuel : nat) (root : option nat) (v : pyobj)
  : M (option nat) :=
  match root with
  | None => retM None
  | Some r =>
      match fuel with
      | O => out_of_fuel
      | S fuel =>
          do! n := get_node r in
          if py_eq (value n) v then retM root
          else first_found (fun child => find_general_node fuel (Some child) v)
                 (children n)
      end
  end.

Definition edit_general_node (fuel : nat) (root : option nat)
  (old_value new_value : pyobj) : M bool :=
  do! node := find_general_node fuel root old_value in
  match node with
  | Some a => set_value a new_value ;;! retM true
  | None => retM false
  end.

Section EachChild.
Context (r : nat) (v : pyobj) (recurse : nat -> M unit).

(** [for i, child in enumerate(root.children)] of
    [delete_general_node]: the list is read again at each step;
    [true] when a child was popped and the function returned from
    inside the loop. *)
Fixpoint scan (steps i : nat) : M bool :=
  do! n := get_node r in
  match children n !! i with
  | None => retM false
  | Some child =>
      match steps with
      | O => out_of_fuel
      | S steps =>
          do! c := get_node child in
          if py_eq (value c) v then
            set_children r (delete i (children n)) ;;! retM true
          else
            recurse child ;;! scan steps (S i)
      end
  end.

End EachChild.

(** [fuel] bounds the recursion depth and the iterations of each loop. *)
Fixpoint delete_general_node (fuel : nat) (root : option nat) (v : pyobj)
  : M (option nat) :=
  match root with
  | None => retM None
  | Some r =>
      match fuel with
      | O => out_of_fuel
      | S fuel =>
          do! n := get_node r in
          if py_eq (value n) v then retM None
          else
            scan r v
              (fun child => delete_general_node fuel (Some child) v ;;! retM tt)
              (S fuel) 0 ;;!
            retM root
      end
  end.

(** [b] is [a] or is reached from [a] through [children] lists. *)
Inductive descends (s : store) : nat -> nat -> Prop :=
| descends_here a : descends s a a
| descends_child a n c b :
    s !! a = Some n -> c ∈ children n -> descends s c b -> descends s a b.

(** From [s] to [s']: no object is added or dropped, every node keeps
    its value, and every [children] list keeps its order and loses only
    entries whose node holds a value equal to [v]. *)
Definition prunes (v : pyobj) (s s' : store) : Prop :=
  length s' = length s /\
  forall a n, s !! a = Some n ->
    exists n', s' !! a = Some n' /\ value n' = value n /\
      sublist (children n') (children n) /\
      forall c, c ∈ children n ->
        c ∈ children n' \/
        exists nc, s !! c = Some nc /\ py_eq (value nc) v = true.

(** The store a program leaves when started from the empty store. *)
Definition store_after {A} (c : M A) : store :=
  match c [] with
  | Return _ s | Raise _ s => s
  | Stuck | OutOfFuel => []
  end.

(** A root ["CEO"] with the children ["CTO"] and ["CFO"]. *)
Definition small_tree : M nat :=
  do! root := create_general_tree (PyStr "CEO") in
  add_general_node_by_path (Some root) "0" (PyStr "CTO") ;;!
  add_general_node_by_path (Some root) "1" (PyStr "CFO") ;;!
  retM root.

End General.





(** * Properties *)

(** ** Reasoning about computations *)

Lemma bindM_Return {A B} (c : M A) (k : A -> M B) h b h' :
  bindM c k h = Return b h' <->
  exists a h1, c h = Return a h1 /\ k a h1 = Return b h'.
Proof.
  unfold bindM. split.
  - destruct (c h) as [a h1| | |]; try discriminate. eauto.
  - intros (a & h1 & -> & Hk). exact Hk.
Qed.

Lemma bindM_Raise {A B} (c : M A) (k : A -> M B) h e h' :
  bindM c k h = Raise e h' <->
  c h = Raise e h' \/ exists a h1, c h = Return a h1 /\ k a h1 = Raise e h'.
Proof.
  unfold bindM. split.
  - destruct (c h) as [a h1|e1 h1| |]; try discriminate; [right; eauto|].
    intros [= -> ->]. by left.
  - intros [-> | (a & h1 & -> & Hk)]; [done | exact Hk].
Qed.

Lemma get_node_Return a h n h' :
  get_node a h = Return n h' <-> h !! a = Some n /\ h' = h.
Proof.
  unfold get_node. destruct (h !! a); split; intros H; try done.
  - by injection H as -> ->.
  - by destruct H as [[= ->] ->].
  - by destruct H.
Qed.

Lemma get_node_lookup a h n : h !! a = Some n -> get_node a h = Return n h.
Proof. intros E. unfold get_node. by rewrite E. Qed.


Lemma same_store_bind {A B} (c : M A) (k : A -> M B) h :
  same_store h (c h) -> (forall a, same_store h (k a h)) ->
  same_store h (bindM c k h).
Proof.
  unfold bindM. intros Hc Hk. destruct (c h) as [a h1|e h1| |]; simpl in *; subst; auto.
Qed.

Lemma same_store_get_node a h : same_store h (get_node a h).
Proof. unfold get_node. by destruct (h !! a). Qed.

Lemma same_store_attr o h : same_store h (attr o h).
Proof. destruct o; simpl; [apply same_store_get_node | done]. Qed.

Lemma walk_indices_same_store indices : forall current h,
  same_store h (walk_indices indices current h).
Proof.
  induction indices as [|idx_str rest IH]; intros current h; simpl; [done|].
  destruct (int idx_str) as [idx|]; [|done].
  apply same_store_bind; [apply same_store_attr|]. intros n.
  destruct (idx >=? _)%Z; [done|].
  destruct (getitem _ _); [apply IH | done].
Qed.

Lemma walk_directions_same_store directions : forall current h,
  same_store h (walk_directions directions current h).
Proof.
  induction directions as [|d rest IH]; intros current h; simpl; [done|].
  destruct (Ascii.eqb (upper d) "L").
  { apply same_store_bind; [apply same_store_get_node|]. intros n.
    destruct (left n); [apply IH | done]. }
  destruct (Ascii.eqb (upper d) "R"); [|done].
  apply same_store_bind; [apply same_store_get_node|]. intros n.
  destruct (right n); [apply IH | done].
Qed.

(** Unfold the primitive operations and split on every test. *)
Ltac run_all :=
  unfold attach_binary, attach_general, add_child, children_append, set_value,
    set_left, set_right, set_children, new_Node, put_node, attr, get_node,
    bindM, retM, raise, out_of_fuel in *;
  repeat (case_match; simplify_eq/=); try done.

Lemma attach_binary_Raise current d v h e h' :
  attach_binary current d v h = Raise e h' -> h' = h.
Proof. intros H. run_all. Qed.

Lemma attach_general_Raise current tok v h e h' :
  attach_general current tok v h = Raise e h' ->
  h' = h \/ h' = h ++ [Node_init v].
Proof. intros H. run_all; auto. Qed.

Lemma add_node_by_path_Raise root path v is_general h e h' :
  add_node_by_path root path v is_general h = Raise e h' ->
  h' = h \/ h' = h ++ [Node_init v].
Proof.
  unfold add_node_by_path. destruct root as [r|]; [|intros [= _ ->]; by left].
  destruct (String.eqb path ""); [intros [= _ ->]; by left|].
  destruct is_general.
  - intros H. apply bindM_Raise in H as [H | (cur & h1 & Hw & H)].
    + pose proof (walk_indices_same_store (removelast (split "-" path)) (Some r) h) as S.
      rewrite H in S. left. exact S.
    + pose proof (walk_indices_same_store (removelast (split "-" path)) (Some r) h) as S.
      rewrite Hw in S. simpl in S. subst h1.
      apply bindM_Raise in H as [H | (u & h2 & _ & H)]; [|discriminate].
      by apply attach_general_Raise in H.
  - intros H. left. apply bindM_Raise in H as [H | (cur & h1 & Hw & H)].
    + pose proof (walk_directions_same_store (removelast (list_ascii_of_string path)) r h) as S.
      rewrite H in S. exact S.
    + pose proof (walk_directions_same_store (removelast (list_ascii_of_string path)) r h) as S.
      rewrite Hw in S. simpl in S. subst h1.
      apply bindM_Raise in H as [H | (u & h2 & _ & H)]; [|discriminate].
      by apply attach_binary_Raise in H.
Qed.

Lemma list_ascii_of_string_app (s t : string) :
  list_ascii_of_string (s ++ t) = list_ascii_of_string s ++ list_ascii_of_string t.
Proof. induction s as [|c s IH]; simpl; [done | by rewrite IH]. Qed.

Lemma append_nonempty (s : string) (c : ascii) :
  String.eqb (s ++ String c "") "" = false.
Proof. by destruct s. Qed.


Lemma walk_directions_keeps_links directions : forall current h target h1,
  walk_directions directions current h = Return target h ->
  keeps_links h h1 ->
  walk_directions directions current h1 = Return target h1.
Proof.
  induction directions as [|d rest IH]; intros current h target h1 Hw Hk; simpl in *.
  { by injection Hw as ->. }
  destruct (Ascii.eqb (upper d) "L").
  { apply bindM_Return in Hw as (n & h2 & Hn & Hw).
    apply get_node_Return in Hn as [Hn ->].
    destruct (Hk _ _ Hn) as (n1 & Hn1 & Hl & _).
    unfold bindM. rewrite (get_node_lookup _ _ _ Hn1).
    destruct (left n) as [l|] eqn:El; [|done].
    rewrite Hl by done. eauto. }
  destruct (Ascii.eqb (upper d) "R"); [|done].
  apply bindM_Return in Hw as (n & h2 & Hn & Hw).
  apply get_node_Return in Hn as [Hn ->].
  destruct (Hk _ _ Hn) as (n1 & Hn1 & _ & Hr).
  unfold bindM. rewrite (get_node_lookup _ _ _ Hn1).
  destruct (right n) as [r|] eqn:Er; [|done].
  rewrite Hr by done. eauto.
Qed.

Lemma lookup_put (h : heap) a n m :
  h !! a = Some n -> <[a := m]> h !! a = Some m.
Proof. intros H. apply list_lookup_insert_eq. by eapply lookup_lt_Some. Qed.

Lemma lookup_grow (h k : heap) a n :
  h !! a = Some n -> (h ++ k) !! a = Some n.
Proof. apply lookup_app_l_Some. Qed.

Lemma attach_binary_L_Return current v h h1 :
  attach_binary current "L" v h = Return tt h1 ->
  exists n n1, h !! current = Some n /\ left n = None /\
    h1 = <[current := n1]> (h ++ [Node_init v]) /\
    left n1 = Some (length h) /\ right n1 = right n /\ value n1 = value n /\
    children n1 = children n ++ [Some (length h)].
Proof.
  intros H. run_all.
  match goal with
  | Hn : ?h !! current = Some ?n, Hg : (?h ++ _) !! current = Some _,
    Hp : <[current := _]> _ !! current = Some _ |- _ =>
      rewrite (lookup_grow _ _ _ _ Hn) in Hg; injection Hg as <-;
      rewrite (lookup_put _ _ _ _ (lookup_grow _ _ _ _ Hn)) in Hp;
      injection Hp as <-
  end.
  eexists _, _. split; [done|]. split; [done|].
  rewrite list_insert_insert_eq. split; [done|]. done.
Qed.

(** The store after a successful insert at [L] keeps every link that
    was set before. *)
Lemma attach_binary_L_keeps_links current v h h1 :
  attach_binary current "L" v h = Return tt h1 -> keeps_links h h1.
Proof.
  intros H. apply attach_binary_L_Return in H
    as (n & n1 & Hn & Hl & -> & Hl1 & Hr1 & _).
  intros a m Ha. destruct (decide (a = current)) as [->|Hne].
  - exists n1. rewrite (lookup_put _ _ _ _ (lookup_grow _ _ _ _ Hn)).
    simplify_eq. split; [done|]. split; [by rewrite Hl | by rewrite Hr1].
  - exists m. rewrite list_lookup_insert_ne by done.
    by rewrite (lookup_grow _ _ _ _ Ha).
Qed.

Lemma add_node_by_path_binary root prefix c v h :
  add_node_by_path (Some root) (prefix ++ String c "") v false h =
  (let! current := walk_directions (list_ascii_of_string prefix) root in
   attach_binary current (upper c) v ;;; retM (Some root)) h.
Proof.
  unfold add_node_by_path.
  rewrite append_nonempty, list_ascii_of_string_app. simpl list_ascii_of_string.
  by rewrite removelast_last, last_last.
Qed.

Lemma insert_L_twice root prefix v1 v2 h r1 h1 :
  add_node_by_path (Some root) (prefix ++ "L") v1 false h = Return r1 h1 ->
  add_node_by_path (Some root) (prefix ++ "L") v2 false h1
  = Raise (ValueError NodeExists) h1.
Proof.
  rewrite !add_node_by_path_binary. change (upper "L") with "L"%char.
  intros H. apply bindM_Return in H as (current & h0 & Hw & H).
  pose proof (walk_directions_same_store (list_ascii_of_string prefix) root h) as S.
  rewrite Hw in S. simpl in S. subst h0.
  apply bindM_Return in H as ([] & h2 & Ha & [= _ ->]).
  pose proof (attach_binary_L_keeps_links _ _ _ _ Ha) as Hk.
  unfold bindM at 1.
  rewrite (walk_directions_keeps_links _ _ _ _ _ Hw Hk).
  apply attach_binary_L_Return in Ha as (n & n1 & Hn & _ & -> & Hl1 & _).
  unfold attach_binary. simpl Ascii.eqb. unfold bindM.
  rewrite (get_node_lookup _ _ n1) by (by eapply lookup_put, lookup_grow).
  by rewrite Hl1.
Qed.

(** ** Failed inserts (C5) *)

(** C5.  An [add_node_by_path] that raises, with whatever exception,
    leaves every node of the store as it was: the store is the one
    before the call, or that one plus the node object that was built
    and never attached.  Inserting at ["L"] under the same parent a
    second time raises "Node already exists" and changes nothing. *)
Theorem failed_insert_leaves_tree :
  (forall root path v is_general (h : heap) e h',
     add_node_by_path root path v is_general h = Raise e h' ->
     (h' = h \/ h' = h ++ [Node_init v]) /\
     (forall a n, h !! a = Some n -> h' !! a = Some n)) /\
  (forall root prefix v1 v2 (h : heap) r1 h1,
     add_node_by_path (Some root) (prefix ++ "L") v1 false h = Return r1 h1 ->
     add_node_by_path (Some root) (prefix ++ "L") v2 false h1
     = Raise (ValueError NodeExists) h1).
Proof.
  split.
  - intros root path v is_general h e h' H.
    apply add_node_by_path_Raise in H. split; [exact H|].
    intros a n Ha. destruct H as [-> | ->]; [done | by apply lookup_grow].
  - apply insert_L_twice.
Qed.

Lemma failed_insert_leaves_tree_witness :
  (forall a n, store_after small_tree !! a = Some n ->
     (store_after small_tree ++ [Node_init (PyInt 9)]) !! a = Some n) /\
  add_node_by_path (Some 0) "LL" (PyInt 9) false
    (store_after (small_tree ;;; add_node_by_path (Some 0) "LL" (PyInt 4) false))
  = Raise (ValueError NodeExists)
      (store_after (small_tree ;;; add_node_by_path (Some 0) "LL" (PyInt 4) false)).
Proof.
  split.
  - apply (proj1 failed_insert_leaves_tree (Some 0) "0-7"%string (PyInt 9) true
             (store_after small_tree) (ValueError (IndexOutOfRange 7 0))).
    vm_compute. reflexivity.
  - apply (proj2 failed_insert_leaves_tree 0 "L"%string (PyInt 4) (PyInt 9)
             (store_after small_tree) (Some 0)).
    vm_compute. reflexivity.
Defined.

(** ** Deleting the root (C6) *)

(** C6.  When the root holds the value, [delete_node] returns [None]
    whatever hangs below the root, and touches no node. *)
Theorem delete_root_discards_tree fuel (h : heap) root n v :
  h !! root = Some n -> py_eq (value n) v = true ->
  delete_node fuel (Some root) v h = Return None h.
Proof.
  intros Hn Hv. unfold delete_node, bindM.
  by rewrite (get_node_lookup _ _ _ Hn), Hv.
Qed.

Lemma delete_root_discards_tree_witness :
  delete_node 0 (Some 0) (PyInt 1) (store_after small_tree)
  = Return None (store_after small_tree).
Proof.
  apply (delete_root_discards_tree 0 (store_after small_tree) 0
           {| value := PyInt 1; left := Some 1; right := Some 2;
              children := [Some 1; Some 2] |} (PyInt 1));
    vm_compute; reflexivity.
Defined.

(** ** [int] on path tokens *)

(** [int] strips blanks, takes a sign and single underscores between
    digits; it strips neither U+001C to U+001F nor anything inside the
    number, and refuses more than 4300 digits. *)
Example int_accepts :
  int " 12 " = Some 12%Z /\ int "+7" = Some 7%Z /\ int "1_0" = Some 10%Z /\
  int "007" = Some 7%Z /\
  int (String (ascii_of_nat 160) "3") = Some 3%Z /\
  int (string_of_list_ascii (repeat "0"%char 4300)) = Some 0%Z.
Proof. vm_compute. repeat split. Qed.

Example int_rejects :
  int "" = None /\ int "a" = None /\ int "1 2" = None /\ int "+ 1" = None /\
  int "_1" = None /\ int "1_" = None /\ int "1__0" = None /\
  int (String (ascii_of_nat 28) "0") = None /\
  int (String "0" (String (ascii_of_nat 31) "")) = None /\
  int (string_of_list_ascii (repeat "0"%char 4301)) = None.
Proof. vm_compute. repeat split. Qed.

(** ** General mode: append only (C7) *)

Lemma walk_indices_app pre : forall post current (h : heap),
  walk_indices (pre ++ post) current h =
  (let! mid := walk_indices pre current in walk_indices post mid) h.
Proof.
  induction pre as [|tok pre IH]; intros post current h; simpl; [done|].
  destruct (int tok) as [idx|]; [|done].
  unfold bindM at 1 2 3. destruct (attr current h) as [n h1| | |]; try done.
  destruct (idx >=? _)%Z; [done|].
  destruct (getitem _ _); [apply IH | done].
Qed.

Lemma add_node_by_path_general root path v (h : heap) :
  path <> ""%string ->
  add_node_by_path (Some root) path v true h =
  (let! current := walk_indices (removelast (split "-" path)) (Some root) in
   attach_general current (List.last (split "-" path) ""%string) v ;;;
   retM (Some root)) h.
Proof.
  intros Hp. unfold add_node_by_path.
  by apply String.eqb_neq in Hp as ->.
Qed.

Create HintDb store discriminated.
#[local] Hint Resolve lookup_put lookup_grow : store.

(** Resolve lookups in stores built by appends and updates. *)
Ltac store_steps :=
  repeat first
    [ progress cbn
    | rewrite list_insert_insert_eq
    | erewrite lookup_put by eauto with store
    | erewrite lookup_grow by eauto with store
    | match goal with
      | H : ?h !! ?a = Some _ |- context [?h !! ?a] => rewrite H
      end ].

Lemma add_child_Return parent child (h : heap) np :
  h !! parent = Some np ->
  add_child parent child h = Return tt (<[parent := with_child np child]> h).
Proof.
  intros Hn. unfold add_child, children_append, set_children, set_left, set_right,
    put_node, get_node, bindM, retM, with_child, with_children, with_left,
    with_right.
  store_steps.
  destruct (Nat.eqb (length (children np ++ [Some child])) 1); store_steps; [done|].
  destruct (Nat.eqb (length (children np ++ [Some child])) 2); by store_steps.
Qed.

Lemma attach_general_spec parent np tok v (h : heap) :
  h !! parent = Some np ->
  attach_general (Some parent) tok v h =
  match int tok with
  | None => Raise (ValueError (InvalidPathIndex tok)) h
  | Some k =>
      if (k =? Z.of_nat (length (children np)))%Z
      then Return tt (<[parent := with_child np (length h)]> (h ++ [Node_init v]))
      else Raise (ValueError (IndexOutOfRange k (length (children np))))
             (h ++ [Node_init v])
  end.
Proof.
  intros Hn. unfold attach_general. destruct (int tok) as [k|]; [|done].
  unfold bindM, new_Node, attr.
  rewrite (get_node_lookup _ _ np) by (by apply lookup_grow).
  destruct (k =? _)%Z; [|done].
  by rewrite (add_child_Return _ _ _ np) by (by apply lookup_grow).
Qed.

Lemma general_insert_at_parent root path v (h : heap) init last_idx parent np :
  path <> ""%string -> split "-" path = init ++ [last_idx] ->
  walk_indices init (Some root) h = Return (Some parent) h ->
  h !! parent = Some np ->
  add_node_by_path (Some root) path v true h =
  match int last_idx with
  | None => Raise (ValueError (InvalidPathIndex last_idx)) h
  | Some k =>
      if (k =? Z.of_nat (length (children np)))%Z
      then Return (Some root)
             (<[parent := with_child np (length h)]> (h ++ [Node_init v]))
      else Raise (ValueError (IndexOutOfRange k (length (children np))))
             (h ++ [Node_init v])
  end.
Proof.
  intros Hp Hs Hw Hn. rewrite add_node_by_path_general by done.
  rewrite Hs, removelast_last, last_last. unfold bindM at 1. rewrite Hw.
  unfold bindM. rewrite (attach_general_spec _ _ _ _ _ Hn).
  destruct (int last_idx) as [k|]; [|done].
  by destruct (k =? _)%Z.
Qed.

Lemma non_integer_token root path v (h : heap) pre tok post current :
  path <> ""%string -> split "-" path = pre ++ tok :: post ->
  walk_indices pre (Some root) h = Return current h ->
  int tok = None ->
  add_node_by_path (Some root) path v true h
  = Raise (ValueError (InvalidPathIndex tok)) h.
Proof.
  intros Hp Hs Hw Hi. rewrite add_node_by_path_general by done. rewrite Hs.
  destruct post as [|tok' post].
  - rewrite removelast_last, last_last. unfold bindM at 1. rewrite Hw.
    unfold bindM, attach_general. by rewrite Hi.
  - rewrite removelast_app by done. unfold bindM at 1.
    rewrite walk_indices_app. unfold bindM at 1. rewrite Hw. simpl.
    by rewrite Hi.
Qed.

(** C7.  In general mode, at a parent the walk has resolved, the insert
    returns exactly when the last index is [len(parent.children)], and
    then the new node is the last child of the parent ([with_child]
    appends it); any other integer raises "Index ... out of range" and
    a token [int] rejects raises "Invalid path index", wherever it
    stands in the path.  On a node with two children ["2"] is accepted
    and ["5"] is refused. *)
Theorem general_insert_append_only :
  (forall root path v (h : heap) init last_idx parent np,
     path <> ""%string -> split "-" path = init ++ [last_idx] ->
     walk_indices init (Some root) h = Return (Some parent) h ->
     h !! parent = Some np ->
     ((exists h', add_node_by_path (Some root) path v true h = Return (Some root) h')
      <-> int last_idx = Some (Z.of_nat (length (children np)))) /\
     (int last_idx = Some (Z.of_nat (length (children np))) ->
      add_node_by_path (Some root) path v true h
      = Return (Some root)
          (<[parent := with_child np (length h)]> (h ++ [Node_init v])) /\
      children (with_child np (length h)) = children np ++ [Some (length h)]) /\
     (forall k, int last_idx = Some k -> k <> Z.of_nat (length (children np)) ->
      add_node_by_path (Some root) path v true h
      = Raise (ValueError (IndexOutOfRange k (length (children np))))
          (h ++ [Node_init v])) /\
     (int last_idx = None ->
      add_node_by_path (Some root) path v true h
      = Raise (ValueError (InvalidPathIndex last_idx)) h)) /\
  (forall root path v (h : heap) pre tok post current,
     path <> ""%string -> split "-" path = pre ++ tok :: post ->
     walk_indices pre (Some root) h = Return current h ->
     int tok = None ->
     add_node_by_path (Some root) path v true h
     = Raise (ValueError (InvalidPathIndex tok)) h) /\
  (forall root v (h : heap) np,
     h !! root = Some np -> length (children np) = 2 ->
     (exists h', add_node_by_path (Some root) "2" v true h = Return (Some root) h') /\
     add_node_by_path (Some root) "5" v true h
     = Raise (ValueError (IndexOutOfRange 5 2)) (h ++ [Node_init v])).
Proof.
  split; [|split].
  - intros root path v h init last_idx parent np Hp Hs Hw Hn.
    pose proof (general_insert_at_parent root path v h init last_idx parent np
                  Hp Hs Hw Hn) as E.
    repeat split.
    + intros [h' H]. rewrite E in H. destruct (int last_idx) as [k|]; [|done].
      destruct (k =? _)%Z eqn:Ek; [|done]. apply Z.eqb_eq in Ek. by subst k.
    + intros Hi. rewrite E, Hi, Z.eqb_refl. eauto.
    + rewrite E, H, Z.eqb_refl. done.
    + intros k Hi Hk. rewrite E, Hi. by apply Z.eqb_neq in Hk as ->.
    + intros Hi. by rewrite E, Hi.
  - apply non_integer_token.
  - intros root v h np Hn Hlen. split.
    + eexists. rewrite (general_insert_at_parent root "2" v h [] "2" root np);
        [|done|done|done|done].
      by rewrite Hlen.
    + rewrite (general_insert_at_parent root "5" v h [] "5" root np);
        [|done|done|done|done].
      by rewrite Hlen.
Qed.

Lemma general_insert_append_only_witness :
  (exists h', add_node_by_path (Some 0) "2" (PyInt 7) true (store_after small_tree)
              = Return (Some 0) h') /\
  add_node_by_path (Some 0) "5" (PyInt 7) true (store_after small_tree)
  = Raise (ValueError (IndexOutOfRange 5 2))
      (store_after small_tree ++ [Node_init (PyInt 7)]).
Proof.
  apply (proj2 (proj2 general_insert_append_only) 0 (PyInt 7)
           (store_after small_tree)
           {| value := PyInt 1; left := Some 1; right := Some 2;
              children := [Some 1; Some 2] |});
    vm_compute; reflexivity.
Defined.

(** ** The document codec (C8, C9) *)

Lemma dict_case_get {A} key (present : pyobj -> A) missing items :
  dict_case key present missing items =
  match dict_get key items with
  | Some v => present v
  | None => missing
  end.
Proof.
  unfold dict_get. induction items as [|[k v] items IH]; simpl; [done|].
  by destruct (String.eqb k key).
Qed.

Lemma dict_get_Forall (P : pyobj -> Prop) key items v :
  Forall (fun kv => P kv.2) items -> dict_get key items = Some v -> P v.
Proof.
  unfold dict_get. induction 1 as [|[k w] items Hw _ IH]; simpl; [done|].
  destruct (String.eqb k key); [by intros [= <-] | exact IH].
Qed.

(** Induction on documents: a dict may assume the property of every
    value it holds. *)
Lemma pyobj_dict_ind (P : pyobj -> Prop) :
  P PyNone -> (forall z, P (PyInt z)) -> (forall s, P (PyStr s)) ->
  (forall items,
     (forall key v, dict_get key items = Some v -> P v) -> P (PyDict items)) ->
  forall d, P d.
Proof.
  intros HN HI HS HD. fix IH 1.
  intros [| z | s | items]; [exact HN | apply HI | apply HS |].
  apply HD. intros key v. apply dict_get_Forall.
  induction items as [|[k w] items IHitems]; constructor.
  - apply IH.
  - exact IHitems.
Qed.

Lemma dict_to_tree_PyDict items :
  _dict_to_tree (PyDict items) =
  dict_case "value"
    (fun v =>
       let! root := new_Node v in
       dict_case "left"
         (fun l => let! t := _dict_to_tree l in set_left root t)
         (retM tt) items ;;;
       dict_case "right"
         (fun r => let! t := _dict_to_tree r in set_right root t)
         (retM tt) items ;;;
       retM (Some root))
    (retM None) items.
Proof. reflexivity. Qed.

Lemma put_middle (h : heap) n m k :
  <[length h := m]> (h ++ n :: k) = h ++ m :: k.
Proof.
  rewrite insert_app_r_alt by done. by rewrite Nat.sub_diag.
Qed.

(** One level of [_dict_to_tree]: the root object is built first, then
    the left subtree, then the right one, each in fresh objects. *)
Lemma dict_to_tree_step items v (h : heap) rl rr newL newR :
  dict_get "value" items = Some v ->
  match dict_get "left" items with
  | Some l => _dict_to_tree l (h ++ [Node_init v])
              = Return rl ((h ++ [Node_init v]) ++ newL)
  | None => rl = None /\ newL = []
  end ->
  match dict_get "right" items with
  | Some r => _dict_to_tree r ((h ++ [with_left (Node_init v) rl]) ++ newL)
              = Return rr (((h ++ [with_left (Node_init v) rl]) ++ newL) ++ newR)
  | None => rr = None /\ newR = []
  end ->
  _dict_to_tree (PyDict items) h
  = Return (Some (length h))
      (h ++ {| value := v; left := rl; right := rr; children := [] |}
         :: newL ++ newR).
Proof.
  intros Hv Hl Hr. rewrite dict_to_tree_PyDict, dict_case_get, Hv.
  unfold bindM at 1. unfold new_Node at 1.
  rewrite !dict_case_get. unfold bindM at 1.
  assert (forall k : heap, (h ++ [Node_init v]) ++ k = h ++ Node_init v :: k)
    as Eapp by (intros k; by rewrite <- app_assoc).
  assert ((match dict_get "left" items with
           | Some l => let! t := _dict_to_tree l in set_left (length h) t
           | None => retM tt
           end) (h ++ [Node_init v])
          = Return tt ((h ++ [with_left (Node_init v) rl]) ++ newL)) as ->.
  { destruct (dict_get "left" items) as [l|].
    - unfold bindM at 1. rewrite Hl. unfold set_left, bindM, get_node, put_node.
      rewrite Eapp, list_lookup_middle by done. rewrite put_middle.
      by rewrite <- app_assoc.
    - destruct Hl as [-> ->]. by rewrite !app_nil_r. }
  unfold bindM at 1.
  assert ((match dict_get "right" items with
           | Some r => let! t := _dict_to_tree r in set_right (length h) t
           | None => retM tt
           end) ((h ++ [with_left (Node_init v) rl]) ++ newL)
          = Return tt (h ++ {| value := v; left := rl; right := rr;
                               children := [] |} :: newL ++ newR)) as ->.
  { destruct (dict_get "right" items) as [r|].
    - unfold bindM at 1. rewrite Hr. unfold set_right, bindM, get_node, put_node.
      rewrite <- !app_assoc. simpl.
      rewrite list_lookup_middle by done. by rewrite put_middle.
    - destruct Hr as [-> ->]. by rewrite <- !app_assoc, app_nil_r. }
  done.
Qed.

Lemma dict_to_tree_allocates doc : forall h : heap,
  exists new r, _dict_to_tree doc h = Return r (h ++ new) /\
    Forall (fun n => children n = []) new /\
    (r = None \/ r = Some (length h)).
Proof.
  induction doc as [| z | s | items IH] using pyobj_dict_ind; intros h;
    try (exists [], None; rewrite app_nil_r; by auto).
  destruct (dict_get "value" items) as [v|] eqn:Hv.
  2:{ exists [], None. rewrite dict_to_tree_PyDict, dict_case_get, Hv, app_nil_r.
      by auto. }
  assert (exists rl newL,
    match dict_get "left" items with
    | Some l => _dict_to_tree l (h ++ [Node_init v])
                = Return rl ((h ++ [Node_init v]) ++ newL)
    | None => rl = None /\ newL = []
    end /\ Forall (fun n => children n = []) newL) as (rl & newL & Hl & HL).
  { destruct (dict_get "left" items) as [l|] eqn:El; [|by exists None, []].
    destruct (IH _ _ El (h ++ [Node_init v])) as (new & r & E & F & _). eauto. }
  assert (exists rr newR,
    match dict_get "right" items with
    | Some r => _dict_to_tree r ((h ++ [with_left (Node_init v) rl]) ++ newL)
                = Return rr (((h ++ [with_left (Node_init v) rl]) ++ newL) ++ newR)
    | None => rr = None /\ newR = []
    end /\ Forall (fun n => children n = []) newR) as (rr & newR & Hr & HR).
  { destruct (dict_get "right" items) as [r|] eqn:Er; [|by exists None, []].
    destruct (IH _ _ Er ((h ++ [with_left (Node_init v) rl]) ++ newL))
      as (new & r' & E & F & _). eauto. }
  eexists _, _. split; [by apply (dict_to_tree_step items v h rl rr newL newR)|].
  split; [|by right].
  constructor; [done|]. by apply Forall_app.
Qed.

(** C9.  [_dict_to_tree] only builds new objects and leaves the store
    it started from in place; every node it builds has an empty
    [children] list, so no [children[0]] or [children[1]] stands beside
    [left] and [right], and [find_node] reaches the nodes below through
    its [left]/[right] branch (the test [len(current.children) > 0]
    fails on each of them). *)
Theorem imported_nodes_have_no_children doc (h : heap) :
  exists new r,
    _dict_to_tree doc h = Return r (h ++ new) /\
    Forall (fun n => children n = [] /\
                     children n !! 0 = None /\ children n !! 1 = None /\
                     Nat.ltb 0 (length (children n)) = false) new.
Proof.
  destruct (dict_to_tree_allocates doc h) as (new & r & E & F & _).
  exists new, r. split; [exact E|].
  eapply Forall_impl; [exact F|]. intros n Hn. simpl in Hn. by rewrite Hn.
Qed.

Lemma tree_to_dict_S depth a (h : heap) n :
  h !! a = Some n ->
  _tree_to_dict (S depth) (Some a) h =
  (let tree_dict := [("value"%string, value n)] in
   let! tree_dict :=
     match left n with
     | Some _ =>
         let! l := _tree_to_dict depth (left n) in
         retM (dict_set "left" l tree_dict)
     | None => retM tree_dict
     end in
   let! tree_dict :=
     match right n with
     | Some _ =>
         let! r := _tree_to_dict depth (right n) in
         retM (dict_set "right" r tree_dict)
     | None => retM tree_dict
     end in
   retM (PyDict tree_dict)) h.
Proof.
  intros Hn. simpl. unfold bindM at 1. by rewrite (get_node_lookup _ _ _ Hn).
Qed.

(** Export and import of what hangs under one link. *)
Lemma link_round_trip depth (h : heap) o ot :
  round_trips depth ->
  below (shape_of depth h) o = Some ot ->
  exists part : option pyobj,
    match o, part with
    | Some _, Some d => _tree_to_dict depth o h = Return d h
    | None, None => True
    | _, _ => False
    end /\
    forall h1 : heap, exists ro new,
      match part with
      | Some d => _dict_to_tree d h1 = Return ro (h1 ++ new)
      | None => ro = None /\ new = []
      end /\
      forall H, holds_at (length h1) new H ->
                below (shape_of depth H) ro = Some ot.
Proof.
  intros IH Ho. destruct o as [c|]; simpl in Ho.
  - destruct (shape_of depth h c) as [t|] eqn:Ht; [|done]. injection Ho as <-.
    destruct (IH _ _ _ Ht) as (d & Hd & Himp). exists (Some d). split; [done|].
    intros h1. destruct (Himp h1) as (new & E & HS). exists (Some (length h1)), new.
    split; [done|]. intros H HH. simpl. by rewrite (HS H HH).
  - injection Ho as <-. exists None. split; [done|].
    intros h1. by exists None, [].
Qed.

Lemma shape_round_trip depth : round_trips depth.
Proof.
  induction depth as [|depth IH]; intros h a t Ht; [done|].
  simpl in Ht. destruct (h !! a) as [n|] eqn:Hn; [|done].
  destruct (below (shape_of depth h) (left n)) as [l|] eqn:Hl; [|done].
  destruct (below (shape_of depth h) (right n)) as [r|] eqn:Hr; [|done].
  injection Ht as <-.
  destruct (link_round_trip _ _ _ _ IH Hl) as (pl & Hpl & Himpl).
  destruct (link_round_trip _ _ _ _ IH Hr) as (pr & Hpr & Himpr).
  exists (PyDict (("value"%string, value n)
                  :: match pl with Some d => [("left"%string, d)] | None => [] end
                  ++ match pr with Some d => [("right"%string, d)] | None => [] end)).
  split.
  { rewrite (tree_to_dict_S _ _ _ _ Hn). cbv zeta. unfold bindM, retM.
    destruct (left n), pl; try done; destruct (right n), pr; try done;
      rewrite ?Hpl, ?Hpr; reflexivity. }
  intros h0.
  destruct (Himpl (h0 ++ [Node_init (value n)])) as (rl & newL & El & HL).
  destruct (Himpr ((h0 ++ [with_left (Node_init (value n)) rl]) ++ newL))
    as (rr & newR & Er & HR).
  eexists. split.
  { apply (dict_to_tree_step _ (value n) h0 rl rr newL newR).
    - done.
    - destruct pl, pr; exact El.
    - destruct pl, pr; exact Er. }
  intros H HH. simpl.
  pose proof (HH 0 _ eq_refl) as H0. rewrite Nat.add_0_r in H0.
  rewrite H0. simpl.
  rewrite (HL H), (HR H); [done| |].
  - intros i m Hi. rewrite !length_app. simpl.
    replace (length h0 + 1 + length newL + i)
      with (length h0 + S (length newL + i)) by lia.
    apply HH. simpl. by rewrite lookup_app_r, Nat.add_comm, Nat.add_sub by lia.
  - intros i m Hi. rewrite length_app. simpl.
    replace (length h0 + 1 + i) with (length h0 + S i) by lia.
    apply HH. simpl. by apply lookup_app_l_Some.
Qed.

(** C8.  A tree that [left] and [right] span to a finite depth is
    exported to a document and back as a tree of the same values and
    shape; the import builds new objects and leaves the store it found
    in place.  [_tree_to_dict(None)] is [None], and so is the import of
    that document. *)
Theorem document_round_trip :
  (forall depth (h : heap) root t,
     shape_of depth h root = Some t ->
     exists doc new,
       _tree_to_dict depth (Some root) h = Return doc h /\
       _dict_to_tree doc h = Return (Some (length h)) (h ++ new) /\
       shape_of depth (h ++ new) (length h) = Some t) /\
  (forall depth (h : heap),
     _tree_to_dict depth None h = Return PyNone h /\
     _dict_to_tree PyNone h = Return None h).
Proof.
  split.
  - intros depth h root t Ht.
    destruct (shape_round_trip depth h root t Ht) as (doc & Hd & Himp).
    destruct (Himp h) as (new & E & HS).
    exists doc, new. split; [done|]. split; [done|].
    apply HS. intros i n Hi. by rewrite lookup_app_r, Nat.add_comm, Nat.add_sub by lia.
  - intros depth h. split; [by destruct depth | done].
Qed.

Lemma document_round_trip_witness :
  exists doc new,
    _tree_to_dict 2 (Some 0) (store_after small_tree)
    = Return doc (store_after small_tree) /\
    _dict_to_tree doc (store_after small_tree)
    = Return (Some (length (store_after small_tree)))
        (store_after small_tree ++ new) /\
    shape_of 2 (store_after small_tree ++ new) (length (store_after small_tree))
    = Some (Shape (PyInt 1) (Some (Shape (PyInt 2) None None))
                            (Some (Shape (PyInt 3) None None))).
Proof.
  apply (proj1 document_round_trip 2 (store_after small_tree) 0).
  vm_compute. reflexivity.
Defined.

(** ** What [delete_node] touches (C10) *)

Lemma scan_children_Return cs : forall i v queued (h : heap) s h',
  scan_children cs i v queued h = Return s h' ->
  h' = h /\
  match s with
  | Hit j => exists child nc,
      i <= j /\ cs !! (j - i) = Some (Some child) /\
      h !! child = Some nc /\ py_eq (value nc) v = true
  | Miss _ => True
  end.
Proof.
  induction cs as [|[child|] cs IH]; intros i v queued h s h' H; simpl in H.
  - by injection H as <- <-.
  - apply bindM_Return in H as (c & h1 & Hc & H).
    apply get_node_Return in Hc as [Hc ->].
    destruct (py_eq (value c) v) eqn:Hv.
    + injection H as <- <-. split; [done|]. exists child, c.
      by rewrite Nat.sub_diag.
    + apply IH in H as [-> H]. split; [done|].
      destruct s as [j|]; [|done]. destruct H as (ch & nc & Hle & Hj & Hn).
      exists ch, nc. split; [lia|]. split; [|done].
      by replace (j - i) with (S (j - S i)) by lia.
  - done.
Qed.

Lemma set_left_Return a x (h : heap) n :
  h !! a = Some n -> set_left a x h = Return tt (<[a := with_left n x]> h).
Proof. intros Hn. unfold set_left, bindM, put_node. by rewrite (get_node_lookup _ _ _ Hn). Qed.

Lemma set_right_Return a x (h : heap) n :
  h !! a = Some n -> set_right a x h = Return tt (<[a := with_right n x]> h).
Proof. intros Hn. unfold set_right, bindM, put_node. by rewrite (get_node_lookup _ _ _ Hn). Qed.

Lemma set_children_Return a cs (h : heap) n :
  h !! a = Some n -> set_children a cs h = Return tt (<[a := with_children n cs]> h).
Proof. intros Hn. unfold set_children, bindM, put_node. by rewrite (get_node_lookup _ _ _ Hn). Qed.

(** The two tests after [pop(i)] rewrite [left] and [right] of the one
    node and nothing else. *)
Lemma relink_left_Return current i (cs : list (option nat)) (h : heap) m u h' :
  h !! current = Some m ->
  (if Nat.eqb i 0 && Nat.leb 1 (length cs) then
     match cs !! 0 with
     | Some c => set_left current c
     | None => raise IndexError
     end
   else if Nat.eqb i 0 then set_left current None
   else retM tt) h = Return u h' ->
  exists m', h' = <[current := m']> h /\ h' !! current = Some m' /\
    value m' = value m /\ children m' = children m.
Proof.
  intros Hm H.
  destruct (Nat.eqb i 0 && Nat.leb 1 (length cs)).
  { destruct (cs !! 0) as [c|]; [|done].
    rewrite (set_left_Return _ _ _ _ Hm) in H. simplify_eq.
    eexists. split; [done|]. split; [by eapply lookup_put|done]. }
  destruct (Nat.eqb i 0).
  { rewrite (set_left_Return _ _ _ _ Hm) in H. simplify_eq.
    eexists. split; [done|]. split; [by eapply lookup_put|done]. }
  unfold retM in H. simplify_eq. exists m. by rewrite list_insert_id by done.
Qed.

Lemma relink_right_Return current i (cs : list (option nat)) (h : heap) m u h' :
  h !! current = Some m ->
  (if Nat.leb i 1 && Nat.leb 2 (length cs) then
     match cs !! 1 with
     | Some c => set_right current c
     | None => raise IndexError
     end
   else if Nat.eqb i 1 then set_right current None
   else retM tt) h = Return u h' ->
  exists m', h' = <[current := m']> h /\ h' !! current = Some m' /\
    value m' = value m /\ children m' = children m.
Proof.
  intros Hm H.
  destruct (Nat.leb i 1 && Nat.leb 2 (length cs)).
  { destruct (cs !! 1) as [c|]; [|done].
    rewrite (set_right_Return _ _ _ _ Hm) in H. simplify_eq.
    eexists. split; [done|]. split; [by eapply lookup_put|done]. }
  destruct (Nat.eqb i 1).
  { rewrite (set_right_Return _ _ _ _ Hm) in H. simplify_eq.
    eexists. split; [done|]. split; [by eapply lookup_put|done]. }
  unfold retM in H. simplify_eq. exists m. by rewrite list_insert_id by done.
Qed.

Lemma unlink_child_Return current i (h : heap) u h' :
  unlink_child current i h = Return u h' ->
  exists n n', h !! current = Some n /\ h' = <[current := n']> h /\
    value n' = value n /\ children n' = delete i (children n).
Proof.
  unfold unlink_child. intros H.
  apply bindM_Return in H as (n & h1 & Hn & H).
  apply get_node_Return in Hn as [Hn ->].
  apply bindM_Return in H as (u1 & h1 & H1 & H).
  rewrite (set_children_Return _ _ _ _ Hn) in H1. simplify_eq.
  apply bindM_Return in H as (u2 & h2 & H2 & H).
  eapply relink_left_Return in H2 as (m2 & -> & Hm2 & V2 & C2);
    [|by eapply lookup_put].
  eapply relink_right_Return in H as (m3 & -> & Hm3 & V3 & C3); [|done].
  exists n, m3. split; [done|]. rewrite !list_insert_insert_eq.
  split; [done|]. simpl in V2, C2. split; congruence.
Qed.

Lemma delete_loop_Return fuel : forall root queue v (h : heap) ret h',
  delete_loop fuel root queue v h = Return ret h' ->
  ret = Some root /\
  (h' = h \/
   exists parent np np' child nc,
     h !! parent = Some np /\
     (Some child ∈ children np \/ left np = Some child \/ right np = Some child) /\
     h !! child = Some nc /\ py_eq (value nc) v = true /\
     np' <> np /\ value np' = value np /\ h' = <[parent := np']> h).
Proof.
  induction fuel as [|fuel IH]; intros root queue v h ret h' H;
    destruct queue as [|current queue]; simpl in H;
    try (injection H as <- <-; by auto); try done.
  apply bindM_Return in H as (n & h1 & Hn & H).
  apply get_node_Return in Hn as [Hn ->].
  apply bindM_Return in H as (s & h1 & Hs & H).
  apply scan_children_Return in Hs as [-> Hs].
  destruct s as [i|queued].
  - destruct Hs as (child & nc & _ & Hi & Hc & Hv). rewrite Nat.sub_0_r in Hi.
    apply bindM_Return in H as (u & h1 & Hu & [= <- <-]).
    apply unlink_child_Return in Hu as (n0 & n' & Hn0 & -> & Hval & Hch).
    simplify_eq. split; [done|]. right. exists current, n, n', child, nc.
    split; [done|]. split; [left; by eapply list_elem_of_lookup_2|].
    repeat (split; [done|]). split; [|done].
    intros ->. apply (f_equal length) in Hch.
    rewrite length_delete in Hch by eauto.
    apply lookup_lt_Some in Hi. lia.
  - destruct (Nat.eqb (length (children n)) 0); [|by apply IH in H].
    apply bindM_Return in H as (l_hit & h1 & Hl & H).
    assert (h1 = h /\ (l_hit = true -> exists c nc, left n = Some c /\
              h !! c = Some nc /\ py_eq (value nc) v = true)) as [-> Hl'].
    { unfold holds_value in Hl. destruct (left n) as [c|].
      - apply bindM_Return in Hl as (nc & h2 & Hc & [= <- <-]).
        apply get_node_Return in Hc as [Hc ->]. split; [done|]. eauto.
      - injection Hl as <- <-. done. }
    destruct l_hit.
    { destruct Hl' as (c & nc & Hlc & Hc & Hv); [done|].
      apply bindM_Return in H as (u & h1 & Hu & [= <- <-]).
      unfold set_left, bindM, put_node in Hu.
      rewrite (get_node_lookup _ _ _ Hn) in Hu. injection Hu as <-.
      split; [done|]. right. exists current, n, (with_left n None), c, nc.
      repeat (split; [by auto|]). split; [|done].
      intros E. apply (f_equal left) in E. simpl in E. congruence. }
    clear Hl Hl'.
    apply bindM_Return in H as (r_hit & h1 & Hr & H).
    assert (h1 = h /\ (r_hit = true -> exists c nc, right n = Some c /\
              h !! c = Some nc /\ py_eq (value nc) v = true)) as [-> Hr'].
    { unfold holds_value in Hr. destruct (right n) as [c|].
      - apply bindM_Return in Hr as (nc & h2 & Hc & [= <- <-]).
        apply get_node_Return in Hc as [Hc ->]. split; [done|]. eauto.
      - injection Hr as <- <-. done. }
    destruct r_hit; [|by apply IH in H].
    destruct Hr' as (c & nc & Hrc & Hc & Hv); [done|].
    apply bindM_Return in H as (u & h1 & Hu & [= <- <-]).
    unfold set_right, bindM, put_node in Hu.
    rewrite (get_node_lookup _ _ _ Hn) in Hu. injection Hu as <-.
    split; [done|]. right. exists current, n, (with_right n None), c, nc.
    repeat (split; [by auto|]). split; [|done].
    intros E. apply (f_equal right) in E. simpl in E. congruence.
Qed.

(** C10.  When [delete_node] changes the store at all, it changes one
    node: the parent that held the node with the value, in [children],
    [left] or [right].  The parent keeps its value; every other node,
    inside or outside the removed subtree, keeps all its fields; no
    object is added or dropped; and the root that is returned is the
    root that was passed. *)
Theorem delete_touches_only_the_parent fuel (h : heap) root v ret h' :
  delete_node fuel (Some root) v h = Return ret h' -> h' <> h ->
  ret = Some root /\
  exists parent np np' child nc,
    h !! parent = Some np /\
    (Some child ∈ children np \/ left np = Some child \/ right np = Some child) /\
    h !! child = Some nc /\ py_eq (value nc) v = true /\
    h' !! parent = Some np' /\ np' <> np /\ value np' = value np /\
    (forall a, a <> parent -> h' !! a = h !! a) /\
    length h' = length h.
Proof.
  unfold delete_node. intros H Hne.
  apply bindM_Return in H as (n & h1 & Hn & H).
  apply get_node_Return in Hn as [Hn ->].
  destruct (py_eq (value n) v); [by injection H as <- <-|].
  apply delete_loop_Return in H as [-> [-> | H]]; [done|]. split; [done|].
  destruct H as (parent & np & np' & child & nc & Hp & Hc & Hnc & Hv & Hd & Hval & ->).
  exists parent, np, np', child, nc. repeat (split; [done|]).
  split; [by eapply lookup_put|]. repeat (split; [done|]).
  split; [|by rewrite length_insert].
  intros a Ha. by rewrite list_lookup_insert_ne.
Qed.

Lemma delete_touches_only_the_parent_witness :
  Some 0 = Some 0 /\
  exists parent np np' child nc,
    store_after small_tree !! parent = Some np /\
    (Some child ∈ children np \/ left np = Some child \/ right np = Some child) /\
    store_after small_tree !! child = Some nc /\
    py_eq (value nc) (PyInt 3) = true /\
    store_after (small_tree ;;; delete_node 5 (Some 0) (PyInt 3)) !! parent
    = Some np' /\
    np' <> np /\ value np' = value np /\
    (forall a, a <> parent ->
       store_after (small_tree ;;; delete_node 5 (Some 0) (PyInt 3)) !! a
       = store_after small_tree !! a) /\
    length (store_after (small_tree ;;; delete_node 5 (Some 0) (PyInt 3)))
    = length (store_after small_tree).
Proof.
  apply (delete_touches_only_the_parent 5 (store_after small_tree) 0 (PyInt 3)
           (Some 0) (store_after (small_tree ;;; delete_node 5 (Some 0) (PyInt 3)))).
  - vm_compute. reflexivity.
  - vm_compute. discriminate.
Defined.

(** ** The binary scenario (C1) *)

(** C1, as stated, fails: after [delete_node(root, 4)] in the scenario,
    [root.left.left] is not absent. *)
Lemma scenario_left_left_not_absent :
  ~ (exists root h,
       (let! root := binary_scenario in
        delete_node 5 (Some root) (PyInt 4)) [] = Return (Some root) h /\
       left_of h (left_of h (Some root)) = None /\
       value_of h (left_of h (Some root)) = Some (PyInt 2)).
Proof.
  intros (root & h & E & Hl & _). vm_compute in E. injection E as <- <-.
  vm_compute in Hl. discriminate Hl.
Qed.

(** C1, amended.  In the scenario [delete_node(root, 4)] returns the
    same root; [root.left] is the same node and still holds 2; node 4
    is gone from [root.left.children], whose only entry is now the node
    holding 50 (the former [root.left.right]); [root.left.left] is that
    node, the new [children[0]]; and every node other than [root.left]
    keeps all its fields. *)
Theorem scenario_delete_moves_sibling_left :
  forall fuel, exists root h0 h parent moved,
    binary_scenario [] = Return root h0 /\
    delete_node (S (S fuel)) (Some root) (PyInt 4) h0 = Return (Some root) h /\
    left_of h0 (Some root) = Some parent /\
    left_of h (Some root) = Some parent /\
    value_of h (Some parent) = Some (PyInt 2) /\
    right_of h0 (Some parent) = Some moved /\
    value_of h (Some moved) = Some (PyInt 50) /\
    children_of h (Some parent) = [Some moved] /\
    left_of h (Some parent) = Some moved /\
    (forall a, a <> parent -> h !! a = h0 !! a).
Proof.
  intros fuel. eexists _, _, _, _, _.
  split; [vm_compute; reflexivity|].
  split; [vm_compute; reflexivity|].
  repeat (split; [vm_compute; reflexivity|]).
  intros a Ha. do 5 (destruct a as [|a]; [done|]). done.
Qed.

(** ** Inserting right before left (C2) *)

(** C2 fails on the code: after ["R"] then ["L"] under a fresh root, both
    inserts having returned, [root.left] is the new node while
    [root.children[0]] is the [None] placeholder; the left child went
    to index 2. *)
Theorem right_then_left_misaligns_children :
  exists root h l r,
    right_first_tree [] = Return root h /\
    left_of h (Some root) = Some l /\ right_of h (Some root) = Some r /\
    children_of h (Some root) = [None; Some r; Some l] /\
    children_of h (Some root) !! 0 <> Some (Some l).
Proof.
  eexists _, _, _, _. repeat (split; [vm_compute; reflexivity|]).
  vm_compute. discriminate.
Qed.

(** ** Searching a tree with a placeholder (C3) *)

(** C3 fails on the code: after the single insert ["R"] under a fresh
    root, [find_node] and [edit_node] for the value just inserted raise
    [AttributeError], however many iterations they are given: the queue
    receives the [None] placeholder and [current.value] is evaluated on
    it. *)
Theorem find_raises_on_placeholder :
  forall fuel, exists root h,
    right_only_tree [] = Return root h /\
    value_of h (right_of h (Some root)) = Some (PyInt 3) /\
    find_node (S (S fuel)) (Some root) (PyInt 3) h = Raise AttributeError h /\
    edit_node (S (S fuel)) (Some root) (PyInt 3) (PyInt 9) h
    = Raise AttributeError h.
Proof.
  intros fuel. eexists _, _. repeat (split; [vm_compute; reflexivity|]).
  vm_compute. reflexivity.
Qed.

(** ** The pointers after a removal at index 0 (C4) *)

(** C4 fails on the code: in the tree with ["L"] = 2 and ["R"] = 3,
    [delete_node(root, 2)] removes index 0; [children] is left with one
    entry, so there is no [children[1]], yet [root.right] is not
    cleared: it still refers to the node holding 3, which is now also
    [root.left]. *)
Theorem delete_at_index_0_keeps_stale_right :
  forall fuel, exists root h0 h kept,
    small_tree [] = Return root h0 /\
    delete_node (S fuel) (Some root) (PyInt 2) h0 = Return (Some root) h /\
    children_of h (Some root) = [Some kept] /\
    children_of h (Some root) !! 1 = None /\
    left_of h (Some root) = Some kept /\
    right_of h (Some root) = Some kept /\
    right_of h (Some root) <> None.
Proof.
  intros fuel. eexists _, _, _, _. repeat (split; [vm_compute; reflexivity|]).
  vm_compute. discriminate.
Qed.

(** * Further properties *)

(** ** [delete_tree] *)

Lemma clears_refl (h : heap) : clears h h.
Proof. split; [done|]. by left. Qed.

Lemma clears_only (h h' : heap) a n :
  clears h h' -> h !! a = Some n ->
  h' !! a = Some n \/ h' !! a = Some (cleared n).
Proof. intros [_ H] Ha. destruct (H a n Ha) as [?|[? _]]; auto. Qed.

Lemma clears_cleared (h h' : heap) a n :
  clears h h' -> h !! a = Some (cleared n) -> h' !! a = Some (cleared n).
Proof. intros H Ha. by destruct (clears_only _ _ _ _ H Ha). Qed.

Lemma clears_trans (h1 h2 h3 : heap) :
  clears h1 h2 -> clears h2 h3 -> clears h1 h3.
Proof.
  intros H12 H23. split; [destruct H12, H23; congruence|].
  intros a n Ha. destruct (proj2 H12 a n Ha) as [H2|[H2 Hc2]].
  - destruct (proj2 H23 a n H2) as [H3|[H3 Hc3]]; [by left|].
    right. split; [done|]. intros c nc Hc Hnc.
    destruct (clears_only _ _ _ _ H12 Hnc) as [E|E];
      [exact (Hc3 c nc Hc E) | exact (Hc3 c (cleared nc) Hc E)].
  - right. split; [by eapply clears_cleared|].
    intros c nc Hc Hnc. eapply clears_cleared; eauto.
Qed.

Lemma delete_tree_S fuel r (h : heap) :
  delete_tree (S fuel) (Some r) h =
  (each_child (delete_tree fuel) r (S fuel) 0 ;;;
   set_children r [] ;;; set_left r None ;;; set_right r None) h.
Proof. reflexivity. Qed.

(** The loop clears every child it is still to visit. *)
Lemma each_child_clears visit r :
  (forall child (h : heap) u h',
     visit child h = Return u h' ->
     clears h h' /\
     forall c nc, child = Some c -> h !! c = Some nc ->
                  h' !! c = Some (cleared nc)) ->
  forall steps i (h : heap) u h',
    each_child visit r steps i h = Return u h' ->
    clears h h' /\
    forall n j c nc, h !! r = Some n -> i <= j ->
      children n !! j = Some (Some c) -> h !! c = Some nc ->
      h' !! c = Some (cleared nc).
Proof.
  intros Hv. induction steps as [|steps IHs]; intros i h u h' H; simpl in H;
    apply bindM_Return in H as (n & h2 & Hn & H);
    apply get_node_Return in Hn as [Hn ->].
  - destruct (children n !! i) as [child|] eqn:Hi; [done|].
    unfold retM in H. simplify_eq. split; [apply clears_refl|].
    intros n' j c nc Hn' Hij Hj _. simplify_eq.
    apply lookup_ge_None in Hi. apply lookup_lt_Some in Hj. lia.
  - destruct (children n !! i) as [child|] eqn:Hi.
    2:{ unfold retM in H. simplify_eq. split; [apply clears_refl|].
        intros n' j c nc Hn' Hij Hj _. simplify_eq.
        apply lookup_ge_None in Hi. apply lookup_lt_Some in Hj. lia. }
    apply bindM_Return in H as (u2 & h2 & Hvisit & H).
    destruct (Hv _ _ _ _ Hvisit) as [C12 Hchild].
    destruct (IHs _ _ _ _ H) as [C23 Hrest].
    split; [by eapply clears_trans|].
    intros n' j c nc Hn' Hij Hj Hnc. simplify_eq.
    destruct (decide (j = i)) as [->|Hne].
    + simplify_eq. eapply clears_cleared; [exact C23|]. by eapply Hchild.
    + destruct (proj2 C12 r n Hn) as [Hr2|[_ Hall]].
      * destruct (clears_only _ _ _ _ C12 Hnc) as [E|E].
        -- eapply (Hrest n j c nc); [done|lia|done|done].
        -- replace (cleared nc) with (cleared (cleared nc)) by done.
           eapply (Hrest n j c); [done|lia|done|done].
      * eapply clears_cleared; [exact C23|].
        apply Hall; [|done]. by eapply list_elem_of_lookup_2.
Qed.

Lemma delete_tree_clears fuel : forall root (h : heap) u h',
  delete_tree fuel root h = Return u h' ->
  clears h h' /\
  forall r n, root = Some r -> h !! r = Some n -> h' !! r = Some (cleared n).
Proof.
  induction fuel as [|fuel IH]; intros [r|] h u h' H;
    try (by simpl in H);
    try (simpl in H; unfold retM in H; simplify_eq; split;
         [apply clears_refl | done]).
  rewrite delete_tree_S in H.
  apply bindM_Return in H as (u1 & h1 & Hloop & H).
  apply each_child_clears in Hloop as [C01 Hkids]; [|exact IH].
  apply bindM_Return in H as (u2 & h2 & Hc & H).
  apply bindM_Return in H as (u3 & h3 & Hl & Hr).
  unfold set_children, set_left, set_right, bindM, put_node, get_node in *.
  destruct (h1 !! r) as [n1|] eqn:Hn1; [|done]. simplify_eq.
  rewrite (lookup_put _ _ _ _ Hn1) in Hl. simplify_eq.
  erewrite lookup_put in Hr by (by eapply lookup_put). simplify_eq.
  rewrite !list_insert_insert_eq.
  change (with_right (with_left (with_children n1 []) None) None)
    with (cleared n1).
  assert (forall n, h !! r = Some n -> cleared n1 = cleared n) as Hcl.
  { intros n Hn. by destruct (clears_only _ _ _ _ C01 Hn) as [E|E]; simplify_eq. }
  assert (forall a n, h !! a = Some n ->
            <[r := cleared n1]> h1 !! a = Some (cleared n) \/
            <[r := cleared n1]> h1 !! a = h1 !! a) as Hput.
  { intros a n Ha. destruct (decide (a = r)) as [->|Hne].
    - left. rewrite (lookup_put _ _ _ _ Hn1). f_equal. by apply Hcl.
    - right. by rewrite list_lookup_insert_ne. }
  split; [|intros r' n [= <-] Hn; rewrite (lookup_put _ _ _ _ Hn1);
           f_equal; by apply Hcl].
  split; [rewrite length_insert; apply C01|].
  intros a n Ha.
  assert (forall c nc, Some c ∈ children n -> h !! c = Some nc ->
            h1 !! c = Some (cleared nc) ->
            <[r := cleared n1]> h1 !! c = Some (cleared nc)) as Hkeep.
  { intros c nc _ Hnc E. destruct (Hput c nc Hnc) as [->| ->]; done. }
  destruct (decide (a = r)) as [->|Hne].
  - right. split; [rewrite (lookup_put _ _ _ _ Hn1); f_equal; by apply Hcl|].
    intros c nc Hc Hnc. apply (Hkeep c nc Hc Hnc).
    destruct (proj2 C01 r n Ha) as [Hr1|[_ Hall]]; [|by apply Hall].
    apply list_elem_of_lookup_1 in Hc as [j Hj].
    eapply (Hkids n j c nc); [done|lia|done|done].
  - rewrite list_lookup_insert_ne by done.
    destruct (proj2 C01 a n Ha) as [Ha1|[Ha1 Hall]]; [by left|].
    right. split; [done|]. intros c nc Hc Hnc.
    apply (Hkeep c nc Hc Hnc). by apply Hall.
Qed.

(** X1.  When [delete_tree(root)] returns, the root and every node
    reached from it through [children] lists are cleared ([children]
    empty, [left] and [right] absent, value kept); every other node is
    as it was or cleared, and no object is added or dropped. *)
Theorem delete_tree_releases_descendants fuel r (h : heap) u h' :
  delete_tree fuel (Some r) h = Return u h' ->
  (forall b nb, descends h r b -> h !! b = Some nb ->
                h' !! b = Some (cleared nb)) /\
  (forall a n, h !! a = Some n ->
               h' !! a = Some n \/ h' !! a = Some (cleared n)) /\
  length h' = length h.
Proof.
  intros H. apply delete_tree_clears in H as [C Hroot].
  split; [|split; [intros a n; by apply clears_only | apply C]].
  assert (forall a b, descends h a b ->
            (forall na, h !! a = Some na -> h' !! a = Some (cleared na)) ->
            forall nb, h !! b = Some nb -> h' !! b = Some (cleared nb)) as Hd.
  { induction 1 as [a|a n c b Hn Hc _ IH]; intros Ha; [exact Ha|].
    apply IH. intros nc Hnc.
    destruct (proj2 C a n Hn) as [E|[_ Hall]]; [|by apply Hall].
    rewrite (Ha n Hn) in E. injection E as E.
    apply (f_equal children) in E. simpl in E. rewrite <- E in Hc.
    by apply elem_of_nil in Hc. }
  intros b nb Hb. apply (Hd r b Hb). intros n Hn. by apply (Hroot r).
Qed.

Lemma delete_tree_releases_descendants_witness :
  (forall b nb, descends (store_after small_tree) 0 b ->
                store_after small_tree !! b = Some nb ->
                store_after (small_tree ;;; delete_tree 2 (Some 0)) !! b
                = Some (cleared nb)) /\
  (forall a n, store_after small_tree !! a = Some n ->
     store_after (small_tree ;;; delete_tree 2 (Some 0)) !! a = Some n \/
     store_after (small_tree ;;; delete_tree 2 (Some 0)) !! a
     = Some (cleared n)) /\
  length (store_after (small_tree ;;; delete_tree 2 (Some 0)))
  = length (store_after small_tree).
Proof.
  apply (delete_tree_releases_descendants 2 0 (store_after small_tree) tt).
  vm_compute. reflexivity.
Defined.

Lemma delete_tree_without_children fuel r (h : heap) n :
  h !! r = Some n -> children n = [] ->
  delete_tree (S fuel) (Some r) h = Return tt (<[r := cleared n]> h).
Proof.
  intros Hn Hc. rewrite delete_tree_S. unfold bindM at 1.
  assert (each_child (delete_tree fuel) r (S fuel) 0 h = Return tt h) as ->.
  { simpl. unfold bindM. by rewrite (get_node_lookup _ _ _ Hn), Hc. }
  unfold bindM. rewrite (set_children_Return _ _ _ _ Hn).
  erewrite set_left_Return by (by eapply lookup_put).
  erewrite set_right_Return by (by eapply lookup_put, lookup_put).
  by rewrite !list_insert_insert_eq.
Qed.

(** X2.  [delete_tree] follows [children] only.  On a node whose
    [children] list is empty it clears that one node and returns: what
    hangs under [left] and [right] stays in the store untouched. *)
Theorem delete_tree_ignores_left_right fuel r (h : heap) n :
  h !! r = Some n -> children n = [] ->
  delete_tree (S fuel) (Some r) h = Return tt (<[r := cleared n]> h) /\
  forall a, a <> r -> <[r := cleared n]> h !! a = h !! a.
Proof.
  intros Hn Hc. split; [by apply delete_tree_without_children|].
  intros a Ha. by rewrite list_lookup_insert_ne.
Qed.

Lemma delete_tree_ignores_left_right_witness :
  delete_tree 1 (Some 0)
    (store_after (_dict_to_tree
       (PyDict [("value"%string, PyInt 1);
                ("left"%string, PyDict [("value"%string, PyInt 2);
                                        ("right"%string,
                                         PyDict [("value"%string, PyInt 3)])])])))
  = Return tt
      [ {| value := PyInt 1; left := None; right := None; children := [] |};
        {| value := PyInt 2; left := None; right := Some 2; children := [] |};
        {| value := PyInt 3; left := None; right := None; children := [] |} ].
Proof.
  apply (proj1 (delete_tree_ignores_left_right 0 0
           (store_after (_dict_to_tree
              (PyDict [("value"%string, PyInt 1);
                       ("left"%string, PyDict [("value"%string, PyInt 2);
                                               ("right"%string,
                                                PyDict [("value"%string, PyInt 3)])])])))
           {| value := PyInt 1; left := Some 1; right := None; children := [] |}
           eq_refl eq_refl)).
Defined.

(** X3.  [delete_tree] is idempotent: once a call on a node has
    returned, a second call on it returns and changes nothing.  On
    [None] it does nothing at all. *)
Theorem delete_tree_idempotent :
  (forall fuel fuel' r (h : heap) u h',
     delete_tree fuel (Some r) h = Return u h' ->
     delete_tree (S fuel') (Some r) h' = Return tt h') /\
  (forall fuel (h : heap), delete_tree fuel None h = Return tt h).
Proof.
  split; [|by intros [|fuel] h].
  intros fuel fuel' r h u h' H.
  assert (exists n, h !! r = Some n) as [n Hn].
  { destruct fuel as [|fuel]; [done|]. rewrite delete_tree_S in H.
    apply bindM_Return in H as (u1 & h1 & Hloop & _).
    destruct fuel; simpl in Hloop;
      apply bindM_Return in Hloop as (n & h2 & Hn & _);
      apply get_node_Return in Hn as [Hn _]; eauto. }
  apply delete_tree_clears in H as [_ Hroot].
  pose proof (Hroot r n eq_refl Hn) as Hr.
  rewrite (delete_tree_without_children fuel' r h' (cleared n)) by done.
  by rewrite list_insert_id.
Qed.

Lemma delete_tree_idempotent_witness :
  delete_tree 1 (Some 0) (store_after (small_tree ;;; delete_tree 2 (Some 0)))
  = Return tt (store_after (small_tree ;;; delete_tree 2 (Some 0))).
Proof.
  apply (proj1 delete_tree_idempotent 2 0 0 (store_after small_tree) tt).
  vm_compute. reflexivity.
Defined.


(** ** [find_node] and [edit_node] *)

Lemma find_loop_same_store fuel : forall queue v (h : heap),
  same_store h (find_loop fuel queue v h).
Proof.
  induction fuel as [|fuel IH]; intros [|current queue] v h; simpl; try done.
  apply same_store_bind; [apply same_store_attr|]. intros n.
  destruct (py_eq (value n) v); [done|].
  destruct (Nat.ltb 0 (length (children n))); apply IH.
Qed.

Lemma find_reach_trans (h : heap) a b c :
  find_reach h a b -> find_reach h b c -> find_reach h a c.
Proof.
  induction 1 as [|a x b Hx _ IH]; [done|]. intros Hc.
  eapply find_reach_next; [exact Hx | by apply IH].
Qed.

(** The queue holds nodes reached from the root; so does the answer. *)
Lemma find_loop_Some fuel root : forall queue v (h : heap) a h',
  (forall c, Some c ∈ queue -> find_reach h root c) ->
  find_loop fuel queue v h = Return (Some a) h' ->
  find_reach h root a /\ exists n, h !! a = Some n /\ py_eq (value n) v = true.
Proof.
  induction fuel as [|fuel IH]; intros [|current queue] v h a h' Hq H;
    simpl in H; try done.
  apply bindM_Return in H as (n & h1 & Hn & H).
  destruct current as [cur|]; [|done]. apply get_node_Return in Hn as [Hn ->].
  assert (find_reach h root cur) as Hcur by (apply Hq; left).
  destruct (py_eq (value n) v) eqn:Hv.
  { injection H as <- <-. eauto. }
  assert (forall c, Some c ∈ queue ++ find_next h cur -> find_reach h root c) as Hq'.
  { intros c [Hc|Hc]%elem_of_app; [apply Hq; by right|].
    eapply find_reach_trans; [exact Hcur|].
    eapply find_reach_next; [exact Hc | apply find_reach_here]. }
  unfold find_next in Hq'. rewrite Hn in Hq'.
  destruct (Nat.ltb 0 (length (children n))); eapply IH; try exact H; exact Hq'.
Qed.

(** Everything reached from the queue is looked at before [None] is
    returned. *)
Lemma find_loop_None fuel : forall queue v (h : heap) h',
  find_loop fuel queue v h = Return None h' ->
  forall c b n, Some c ∈ queue -> find_reach h c b -> h !! b = Some n ->
                py_eq (value n) v = false.
Proof.
  induction fuel as [|fuel IH]; intros [|current queue] v h h' H c b n Hc Hb Hn;
    simpl in H; try done; try (by apply elem_of_nil in Hc).
  apply bindM_Return in H as (m & h1 & Hm & H).
  destruct current as [cur|]; [|done]. apply get_node_Return in Hm as [Hm ->].
  destruct (py_eq (value m) v) eqn:Hv; [done|].
  assert (find_loop fuel (queue ++ find_next h cur) v h = Return None h') as H'.
  { unfold find_next. rewrite Hm.
    by destruct (Nat.ltb 0 (length (children m))). }
  clear H. apply elem_of_cons in Hc as [[= ->]|Hc].
  - destruct Hb as [|cur x b Hx Hb]; [by simplify_eq|].
    eapply (IH _ _ _ _ H' x b n); [|done|done]. apply elem_of_app. by right.
  - eapply (IH _ _ _ _ H' c b n); [|done|done]. apply elem_of_app. by left.
Qed.

Lemma find_node_found fuel root v (h : heap) a h' :
  find_node fuel (Some root) v h = Return (Some a) h' ->
  exists n, h !! a = Some n /\ py_eq (value n) v = true.
Proof.
  intros H. eapply (find_loop_Some fuel root) in H as [_ H]; [exact H|].
  intros c Hc. apply list_elem_of_singleton in Hc as [= ->]. apply find_reach_here.
Qed.

(** X4.  [find_node] never writes to the store, however it ends.  A
    node it returns holds a value equal to the one sought and is reached
    from the root along the links the search follows. *)
Theorem find_node_sound fuel root v (h : heap) :
  same_store h (find_node fuel (Some root) v h) /\
  forall a h', find_node fuel (Some root) v h = Return (Some a) h' ->
    find_reach h root a /\
    exists n, h !! a = Some n /\ py_eq (value n) v = true.
Proof.
  split; [apply find_loop_same_store|].
  intros a h' H. eapply find_loop_Some; [|exact H].
  intros c Hc. apply list_elem_of_singleton in Hc as [= ->]. apply find_reach_here.
Qed.

(** X5.  When [find_node] returns [None], no node reached from the root
    (through [children] where that list is not empty, through [left]
    and [right] otherwise) holds a value equal to the one sought. *)
Theorem find_node_None_complete fuel root v (h : heap) h' b n :
  find_node fuel (Some root) v h = Return None h' ->
  find_reach h root b -> h !! b = Some n ->
  py_eq (value n) v = false.
Proof.
  intros H Hb Hn. eapply (find_loop_None _ _ _ _ _ H root b n); [|done|done].
  by apply list_elem_of_singleton.
Qed.

Lemma find_node_sound_witness :
  find_reach (store_after small_tree) 0 2 /\
  exists n, store_after small_tree !! 2 = Some n /\
            py_eq (value n) (PyInt 3) = true.
Proof.
  apply (proj2 (find_node_sound 3 0 (PyInt 3) (store_after small_tree))
           2 (store_after small_tree)).
  vm_compute. reflexivity.
Defined.

Lemma find_node_None_complete_witness :
  py_eq (value (Node_init (PyInt 3))) (PyInt 9) = false.
Proof.
  apply (find_node_None_complete 4 0 (PyInt 9) (store_after small_tree)
           (store_after small_tree) 2 (Node_init (PyInt 3))).
  - vm_compute. reflexivity.
  - apply (find_reach_next _ 0 2 2); [|apply find_reach_here].
    vm_compute. apply list_elem_of_In. simpl. auto.
  - vm_compute. reflexivity.
Defined.

(** X6.  [edit_node] either returns [False] and leaves the store as it
    was, or returns [True] after overwriting the value of one node that
    held a value equal to the old one.  In both cases every node keeps
    its [left], [right] and [children]. *)
Theorem edit_node_keeps_structure fuel root old new (h : heap) b h' :
  edit_node fuel root old new h = Return b h' ->
  ((b = false /\ h' = h) \/
   (b = true /\ exists a n, h !! a = Some n /\ py_eq (value n) old = true /\
                            h' = <[a := with_value n new]> h)) /\
  length h' = length h /\
  forall a n, h !! a = Some n ->
    exists n', h' !! a = Some n' /\
      left n' = left n /\ right n' = right n /\ children n' = children n.
Proof.
  unfold edit_node. intros H.
  apply bindM_Return in H as (node & h1 & Hf & H).
  assert (h1 = h) as ->.
  { destruct root as [r|]; [|by injection Hf as _ <-].
    pose proof (find_loop_same_store fuel [Some r] old h) as S.
    simpl in Hf. rewrite Hf in S. exact S. }
  destruct node as [a|].
  - destruct root as [r|]; [|done].
    apply find_node_found in Hf as (n & Hn & Hv).
    apply bindM_Return in H as (u & h2 & Hs & [= <- <-]).
    unfold set_value, bindM, put_node in Hs.
    rewrite (get_node_lookup _ _ _ Hn) in Hs. simplify_eq.
    split; [right; eauto 10|]. split; [by rewrite length_insert|].
    intros c m Hm. destruct (decide (c = a)) as [->|Hne].
    + rewrite Hn in Hm. injection Hm as <-. exists (with_value n new).
      by rewrite (lookup_put _ _ _ _ Hn).
    + exists m. by rewrite list_lookup_insert_ne.
  - injection H as <- <-. split; [by left|]. split; [done|]. eauto.
Qed.

Lemma edit_node_keeps_structure_witness :
  ((true = false /\
    store_after (small_tree ;;; edit_node 3 (Some 0) (PyInt 3) (PyInt 7))
    = store_after small_tree) \/
   (true = true /\ exists a n,
      store_after small_tree !! a = Some n /\
      py_eq (value n) (PyInt 3) = true /\
      store_after (small_tree ;;; edit_node 3 (Some 0) (PyInt 3) (PyInt 7))
      = <[a := with_value n (PyInt 7)]> (store_after small_tree))) /\
  length (store_after (small_tree ;;; edit_node 3 (Some 0) (PyInt 3) (PyInt 7)))
  = length (store_after small_tree) /\
  forall a n, store_after small_tree !! a = Some n ->
    exists n',
      store_after (small_tree ;;; edit_node 3 (Some 0) (PyInt 3) (PyInt 7)) !! a
      = Some n' /\
      left n' = left n /\ right n' = right n /\ children n' = children n.
Proof.
  apply (edit_node_keeps_structure 3 (Some 0) (PyInt 3) (PyInt 7)
           (store_after small_tree) true).
  vm_compute. reflexivity.
Defined.


(** ** Where an insert puts the node *)

Lemma children_append_Return a x (h : heap) n :
  h !! a = Some n ->
  children_append a x h = Return tt (<[a := with_children n (children n ++ [x])]> h).
Proof.
  intros Hn. unfold children_append, bindM.
  by rewrite (get_node_lookup _ _ _ Hn), (set_children_Return _ _ _ _ Hn).
Qed.

Lemma new_Node_Return v (h : heap) :
  new_Node v h = Return (length h) (h ++ [Node_init v]).
Proof. reflexivity. Qed.

Lemma attach_binary_Return current d v (h : heap) u h1 :
  attach_binary current d v h = Return u h1 ->
  exists n n1,
    h !! current = Some n /\ h1 = <[current := n1]> (h ++ [Node_init v]) /\
    value n1 = value n /\
    ((Ascii.eqb d "L" = true /\ left n = None /\
      left n1 = Some (length h) /\ right n1 = right n) \/
     (Ascii.eqb d "L" = false /\ Ascii.eqb d "R" = true /\ right n = None /\
      right n1 = Some (length h) /\ left n1 = left n)).
Proof.
  unfold attach_binary. intros H.
  destruct (Ascii.eqb d "L") eqn:EL.
  - apply bindM_Return in H as (n & h0 & Hn & H).
    apply get_node_Return in Hn as [Hn ->].
    destruct (left n) eqn:El; [done|].
    unfold bindM in H. rewrite new_Node_Return in H.
    pose proof (lookup_grow h [Node_init v] _ _ Hn) as Hg.
    rewrite (set_left_Return _ _ _ _ Hg) in H.
    erewrite children_append_Return in H by eauto with store.
    rewrite list_insert_insert_eq in H. simplify_eq.
    eexists _, _. split; [done|]. split; [done|]. split; [done|]. left. done.
  - destruct (Ascii.eqb d "R") eqn:ER; [|done].
    apply bindM_Return in H as (n & h0 & Hn & H).
    apply get_node_Return in Hn as [Hn ->].
    destruct (right n) eqn:Er; [done|].
    unfold bindM in H. rewrite new_Node_Return in H.
    pose proof (lookup_grow h [Node_init v] _ _ Hn) as Hg.
    rewrite (set_right_Return _ _ _ _ Hg) in H.
    erewrite get_node_lookup in H by eauto with store.
    simpl in H.
    destruct (Nat.eqb (length (children n)) 0).
    + erewrite children_append_Return in H by eauto with store.
      erewrite children_append_Return in H by eauto with store.
      rewrite !list_insert_insert_eq in H. simplify_eq.
      eexists _, _. split; [done|]. split; [done|]. split; [done|]. right. done.
    + unfold retM in H.
      erewrite children_append_Return in H by eauto with store.
      rewrite !list_insert_insert_eq in H. simplify_eq.
      eexists _, _. split; [done|]. split; [done|]. split; [done|]. right. done.
Qed.

Lemma walk_directions_app pre : forall post current (h : heap),
  walk_directions (pre ++ post) current h =
  (let! mid := walk_directions pre current in walk_directions post mid) h.
Proof.
  induction pre as [|d pre IH]; intros post current h; simpl; [done|].
  destruct (Ascii.eqb (upper d) "L").
  { unfold bindM at 1 2 3. destruct (get_node current h) as [n h1| | |]; try done.
    destruct (left n); [apply IH | done]. }
  destruct (Ascii.eqb (upper d) "R"); [|done].
  unfold bindM at 1 2 3. destruct (get_node current h) as [n h1| | |]; try done.
  destruct (right n); [apply IH | done].
Qed.

(** X7.  After a binary-mode insert has returned, the same root is
    handed back, the store has one more object, a node holding the
    value with no links, and walking the whole path from the root ends
    at that node.  Every node that was there keeps its value and every
    [left] or [right] link that was set. *)
Theorem binary_insert_lands root path v (h : heap) r h1 :
  add_node_by_path (Some root) path v false h = Return r h1 ->
  r = Some root /\
  length h1 = S (length h) /\
  h1 !! length h = Some (Node_init v) /\
  walk_directions (list_ascii_of_string path) root h1 = Return (length h) h1 /\
  forall a n, h !! a = Some n ->
    exists n1, h1 !! a = Some n1 /\ value n1 = value n /\
      (left n <> None -> left n1 = left n) /\
      (right n <> None -> right n1 = right n).
Proof.
  unfold add_node_by_path. destruct (String.eqb path "") eqn:Ep; [done|].
  assert (list_ascii_of_string path <> []) as Hne.
  { destruct path; [done|discriminate]. }
  set (chars := list_ascii_of_string path) in *.
  intros H. apply bindM_Return in H as (current & h0 & Hw & H).
  pose proof (walk_directions_same_store (removelast chars) root h) as S.
  rewrite Hw in S. simpl in S. subst h0.
  apply bindM_Return in H as (u & h2 & Ha & [= <- <-]).
  apply attach_binary_Return in Ha as (n & n1 & Hn & -> & Hval & Hd).
  assert (forall a m, h !! a = Some m ->
    exists m1, <[current := n1]> (h ++ [Node_init v]) !! a = Some m1 /\
      value m1 = value m /\
      (left m <> None -> left m1 = left m) /\
      (right m <> None -> right m1 = right m)) as Hkeep.
  { intros a m Ha. destruct (decide (a = current)) as [->|Hac].
    - exists n1. rewrite (lookup_put _ _ _ _ (lookup_grow _ _ _ _ Hn)).
      simplify_eq. split; [done|]. split; [done|].
      destruct Hd as [(_ & Hl & _ & Hr)|(_ & _ & Hr & _ & Hl)];
        rewrite ?Hl, ?Hr; by split.
    - exists m. rewrite list_lookup_insert_ne by done.
      by rewrite (lookup_grow _ _ _ _ Ha). }
  split; [done|]. split; [by rewrite length_insert, length_app, Nat.add_comm|].
  split.
  { rewrite list_lookup_insert_ne by (apply lookup_lt_Some in Hn; lia).
    by rewrite list_lookup_middle. }
  split; [|exact Hkeep].
  rewrite (app_removelast_last "000"%char Hne), walk_directions_app.
  unfold bindM.
  rewrite (walk_directions_keeps_links _ _ _ _ _ Hw).
  2:{ intros a m Ha. destruct (Hkeep a m Ha) as (m1 & ? & _ & ? & ?). eauto. }
  cbn [walk_directions].
  destruct Hd as [(-> & _ & Hl & _)|(-> & -> & _ & Hr & _)]; unfold bindM;
    rewrite (get_node_lookup _ _ n1) by (by eapply lookup_put, lookup_grow);
    by rewrite ?Hl, ?Hr.
Qed.

Lemma binary_insert_lands_witness :
  Some 0 = Some 0 /\
  length (store_after (small_tree ;;;
            add_node_by_path (Some 0) "rl" (PyInt 6) false))
  = S (length (store_after small_tree)) /\
  store_after (small_tree ;;; add_node_by_path (Some 0) "rl" (PyInt 6) false)
    !! length (store_after small_tree) = Some (Node_init (PyInt 6)) /\
  walk_directions (list_ascii_of_string "rl") 0
    (store_after (small_tree ;;; add_node_by_path (Some 0) "rl" (PyInt 6) false))
  = Return (length (store_after small_tree))
      (store_after (small_tree ;;; add_node_by_path (Some 0) "rl" (PyInt 6) false)) /\
  forall a n, store_after small_tree !! a = Some n ->
    exists n1,
      store_after (small_tree ;;; add_node_by_path (Some 0) "rl" (PyInt 6) false)
        !! a = Some n1 /\ value n1 = value n /\
      (left n <> None -> left n1 = left n) /\
      (right n <> None -> right n1 = right n).
Proof.
  apply (binary_insert_lands 0 "rl" (PyInt 6) (store_after small_tree) (Some 0)).
  vm_compute. reflexivity.
Defined.


(** ** General mode: indices, alignment, landing *)

Lemma digits_nonneg s : forall acc after k,
  (0 <= acc)%Z -> digits acc after s = Some k -> (0 <= k)%Z.
Proof.
  induction s as [|c s IH]; intros acc after k Hacc H; simpl in H.
  - destruct after; by simplify_eq.
  - destruct (Ascii.eqb c "_").
    + destruct after; [by eapply IH|done].
    + unfold digit in H.
      destruct (Nat.leb 48 (nat_of_ascii c) && Nat.leb (nat_of_ascii c) 57); [|done].
      eapply IH; [|exact H]. lia.
Qed.

Lemma lstrip_subset s c : c ∈ lstrip s -> c ∈ s.
Proof.
  induction s as [|x s IH]; simpl; [done|].
  destruct (is_space x); [|done]. intros H. right. by apply IH.
Qed.

Lemma strip_subset s c : c ∈ strip s -> c ∈ s.
Proof.
  unfold strip. rewrite !list_elem_of_In. intros H.
  apply in_rev in H. apply list_elem_of_In, lstrip_subset in H.
  apply list_elem_of_In, in_rev in H.
  by apply list_elem_of_In, lstrip_subset, list_elem_of_In in H.
Qed.

Lemma bounded_digits_nonneg ds k : bounded_digits ds = Some k -> (0 <= k)%Z.
Proof.
  unfold bounded_digits. destruct (_ <? _)%Z; [done|].
  by apply digits_nonneg.
Qed.

(** A token without a minus sign never parses to a negative number. *)
Lemma int_nonneg tok k :
  "-"%char ∉ list_ascii_of_string tok -> int tok = Some k -> (0 <= k)%Z.
Proof.
  unfold int. intros Hm H.
  destruct (strip (list_ascii_of_string tok)) as [|c ds] eqn:Es.
  { by eapply bounded_digits_nonneg in H. }
  destruct c as [[] [] [] [] [] [] [] []];
    try (by eapply bounded_digits_nonneg in H).
  exfalso. apply Hm, strip_subset. rewrite Es. by left.
Qed.

Lemma split_no_sep sep s : forall tok,
  tok ∈ split sep s -> sep ∉ list_ascii_of_string tok.
Proof.
  induction s as [|c s IH]; intros tok H; simpl in H.
  - apply list_elem_of_singleton in H as ->. simpl. by apply not_elem_of_nil.
  - destruct (Ascii.eqb c sep) eqn:Ec.
    + apply elem_of_cons in H as [->|H]; [simpl; by apply not_elem_of_nil|by apply IH].
    + destruct (split sep s) as [|t ts] eqn:Es.
      * apply list_elem_of_singleton in H as ->. simpl.
        intros [->|H]%elem_of_cons; [by rewrite Ascii.eqb_refl in Ec|].
        by apply elem_of_nil in H.
      * apply elem_of_cons in H as [->|H].
        -- simpl. intros [->|H]%elem_of_cons; [by rewrite Ascii.eqb_refl in Ec|].
           revert H. apply IH. by left.
        -- apply IH. by right.
Qed.

Lemma getitem_nonneg {A} (l : list A) (i : Z) :
  (0 <= i)%Z -> getitem l i = l !! Z.to_nat i.
Proof. intros Hi. unfold getitem. by destruct (Z.ltb_spec i 0); [lia|]. Qed.

Lemma get_node_never_raises a (h : heap) e h' : get_node a h = Raise e h' -> False.
Proof. unfold get_node. by destruct (h !! a). Qed.

Lemma walk_indices_no_IndexError indices : forall current (h : heap) h',
  Forall (fun tok => "-"%char ∉ list_ascii_of_string tok) indices ->
  walk_indices indices current h <> Raise IndexError h'.
Proof.
  induction indices as [|tok rest IH]; intros current h h' Hf; simpl; [done|].
  apply Forall_cons in Hf as [Htok Hf].
  destruct (int tok) as [idx|] eqn:Hi; [|done].
  apply int_nonneg in Hi; [|done].
  unfold bindM. destruct (attr current h) as [n h1|e h1| |] eqn:Ha; try done.
  - destruct (Z.geb_spec idx (Z.of_nat (length (children n)))) as [|Hlt]; [done|].
    rewrite getitem_nonneg by done.
    destruct (children n !! Z.to_nat idx) as [child|] eqn:Hc; [by apply IH|].
    apply lookup_ge_None in Hc. lia.
  - destruct current; simpl in Ha; [|by injection Ha as <- <-].
    by apply get_node_never_raises in Ha.
Qed.

Lemma split_nonempty sep s : split sep s <> [].
Proof.
  destruct s as [|c s]; simpl; [done|].
  destruct (Ascii.eqb c sep); [done|]. by destruct (split sep s).
Qed.

Lemma removelast_subset {A} (l : list A) x : x ∈ removelast l -> x ∈ l.
Proof.
  induction l as [|y l IH]; simpl; [done|].
  destruct l as [|z l]; [by intros ?%elem_of_nil|].
  intros [->|H]%elem_of_cons; [by left|]. right. by apply IH.
Qed.

(** What a general-mode insert that returns has done. *)
Lemma general_insert_Return root path v (h : heap) r h1 :
  add_node_by_path (Some root) path v true h = Return r h1 ->
  r = Some root /\
  exists parent np,
    walk_indices (removelast (split "-" path)) (Some root) h
    = Return (Some parent) h /\
    (h ++ [Node_init v]) !! parent = Some np /\
    int (List.last (split "-" path) ""%string)
    = Some (Z.of_nat (length (children np))) /\
    h1 = <[parent := with_child np (length h)]> (h ++ [Node_init v]).
Proof.
  unfold add_node_by_path. destruct (String.eqb path ""); [done|].
  intros H. apply bindM_Return in H as (current & h0 & Hw & H).
  pose proof (walk_indices_same_store (removelast (split "-" path)) (Some root) h) as S.
  rewrite Hw in S. simpl in S. subst h0.
  apply bindM_Return in H as (u & h2 & Ha & [= <- <-]).
  split; [done|].
  unfold attach_general in Ha.
  destruct (int (List.last (split "-" path) ""%string)) as [k|] eqn:Hk; [|done].
  unfold bindM in Ha. rewrite new_Node_Return in Ha.
  destruct current as [parent|]; [|done]. simpl in Ha.
  destruct (get_node parent (h ++ [Node_init v])) as [np h3| | |] eqn:Hg; try done.
  apply get_node_Return in Hg as [Hg ->].
  destruct (Z.eqb_spec k (Z.of_nat (length (children np)))) as [->|]; [|done].
  exists parent, np. repeat (split; [done|]).
  rewrite (add_child_Return _ _ _ np) in Ha by done. by simplify_eq.
Qed.

Lemma with_child_aligned n c : aligned n -> aligned (with_child n c).
Proof.
  intros [Hl Hr]. unfold aligned, with_child. simpl.
  rewrite length_app. simpl.
  destruct (children n) as [|x [|y cs]] eqn:Ec; simpl in *; try done.
  rewrite Nat.add_comm. simpl. by rewrite Hl, Hr.
Qed.

(** X9.  General-mode inserts keep [left] and [right] in step with
    [children]: in a store where every node has [left] equal to
    [children[0]] and [right] equal to [children[1]] (absent where the
    list is shorter), an insert that returns leaves a store with the
    same property. *)
Theorem general_insert_keeps_alignment root path v (h : heap) r h1 :
  Forall aligned h ->
  add_node_by_path root path v true h = Return r h1 ->
  Forall aligned h1.
Proof.
  intros Hal H. destruct root as [root|]; [|done].
  apply general_insert_Return in H as (_ & parent & np & _ & Hn & _ & ->).
  assert (Forall aligned (h ++ [Node_init v])) as Hal'.
  { apply Forall_app. split; [done|]. by repeat constructor. }
  apply Forall_insert; [done|]. apply with_child_aligned.
  by eapply Forall_lookup_1 in Hal'.
Qed.

Lemma general_insert_keeps_alignment_witness :
  Forall aligned
    (store_after (small_tree ;;; add_node_by_path (Some 0) "2" (PyInt 7) true)).
Proof.
  apply (general_insert_keeps_alignment (Some 0) "2" (PyInt 7)
           (store_after small_tree) (Some 0)).
  - vm_compute. repeat constructor.
  - vm_compute. reflexivity.
Defined.

Lemma split_init_no_minus path :
  Forall (fun tok => "-"%char ∉ list_ascii_of_string tok)
    (removelast (split "-" path)).
Proof.
  apply Forall_forall. intros tok H. by apply (split_no_sep "-" path), removelast_subset.
Qed.

(** X8.  The separator of a general-mode path is the minus sign, so no
    index of a path is negative, and [add_node_by_path] in general mode
    never indexes a [children] list from its end or out of its range:
    it never raises [IndexError]. *)
Theorem general_path_indices_in_range :
  (forall path tok k,
     tok ∈ split "-" path -> int tok = Some k -> (0 <= k)%Z) /\
  (forall root path v (h : heap) h',
     add_node_by_path root path v true h <> Raise IndexError h').
Proof.
  split.
  - intros path tok k Ht. apply int_nonneg. by eapply split_no_sep.
  - intros root path v h h'. unfold add_node_by_path.
    destruct root as [root|]; [|done]. destruct (String.eqb path ""); [done|].
    intros H. apply bindM_Raise in H as [H|(current & h0 & Hw & H)].
    { revert H. apply walk_indices_no_IndexError, split_init_no_minus. }
    apply bindM_Raise in H as [H|(u & h2 & _ & H)]; [|done].
    unfold attach_general in H.
    destruct (int _) as [k|]; [|done].
    unfold bindM in H. rewrite new_Node_Return in H.
    destruct current as [parent|]; [|done]. simpl in H.
    destruct (get_node parent _) as [np h3| | |] eqn:Hg; try done.
    { apply get_node_Return in Hg as [Hg ->].
      destruct (_ =? _)%Z; [|done].
      by rewrite (add_child_Return _ _ _ np) in H. }
    by apply get_node_never_raises in Hg.
Qed.

Lemma general_path_indices_in_range_witness : (0 <= 12)%Z.
Proof.
  apply (proj1 general_path_indices_in_range "0-12-3"%string "12"%string 12%Z).
  - vm_compute. apply list_elem_of_In. simpl. auto.
  - vm_compute. reflexivity.
Defined.

(** A walk over non-negative indices takes the same route in a store
    where every [children] list has only grown at its end. *)
Lemma walk_indices_grown indices : forall current target (h h1 : heap),
  Forall (fun tok => "-"%char ∉ list_ascii_of_string tok) indices ->
  (forall a n, h !! a = Some n ->
     exists n1, h1 !! a = Some n1 /\
       forall i x, children n !! i = Some x -> children n1 !! i = Some x) ->
  walk_indices indices current h = Return target h ->
  walk_indices indices current h1 = Return target h1.
Proof.
  induction indices as [|tok rest IH]; intros current target h h1 Hf Hg Hw;
    simpl in *; [by injection Hw as ->|].
  apply Forall_cons in Hf as [Htok Hf].
  destruct (int tok) as [idx|] eqn:Hi; [|done].
  apply int_nonneg in Hi; [|done].
  apply bindM_Return in Hw as (n & h2 & Hn & Hw).
  destruct current as [cur|]; [|done]. apply get_node_Return in Hn as [Hn ->].
  destruct (Hg _ _ Hn) as (n1 & Hn1 & Hpre).
  unfold bindM. simpl. rewrite (get_node_lookup _ _ _ Hn1).
  destruct (Z.geb_spec idx (Z.of_nat (length (children n)))) as [|Hlt]; [done|].
  rewrite getitem_nonneg in Hw |- * by done.
  destruct (children n !! Z.to_nat idx) as [child|] eqn:Hc; [|done].
  pose proof (Hpre _ _ Hc) as Hc1. rewrite Hc1.
  apply lookup_lt_Some in Hc1.
  destruct (Z.geb_spec idx (Z.of_nat (length (children n1)))) as [|_]; [lia|].
  by eapply IH.
Qed.

Lemma getitem_elem_of {A} (l : list A) i x : getitem l i = Some x -> x ∈ l.
Proof.
  unfold getitem. destruct (_ <? _)%Z; [destruct (_ <? _)%Z; [done|]|];
    apply list_elem_of_lookup_2.
Qed.

Lemma walk_indices_allocated indices : forall current target (h : heap),
  children_allocated h -> current < length h ->
  walk_indices indices (Some current) h = Return (Some target) h ->
  target < length h.
Proof.
  induction indices as [|tok rest IH]; intros current target h Hal Hc Hw;
    simpl in Hw; [by injection Hw as <-|].
  destruct (int tok) as [idx|]; [|done].
  apply bindM_Return in Hw as (n & h2 & Hn & Hw).
  apply get_node_Return in Hn as [Hn ->].
  destruct (_ >=? _)%Z; [done|].
  destruct (getitem (children n) idx) as [child|] eqn:Hg; [|done].
  apply getitem_elem_of in Hg.
  destruct child as [child|].
  - eapply (IH child); [done| |done]. by eapply Hal.
  - destruct rest as [|tok' rest']; simpl in Hw; [done|].
    by destruct (int tok').
Qed.

(** X10.  In a store without dangling references, after a general-mode
    insert has returned, walking the whole index path from the root
    ends at the new node, which holds the value and has no links. *)
Theorem general_insert_lands root path v (h : heap) r h1 :
  children_allocated h -> root < length h ->
  add_node_by_path (Some root) path v true h = Return r h1 ->
  walk_indices (split "-" path) (Some root) h1 = Return (Some (length h)) h1 /\
  h1 !! length h = Some (Node_init v).
Proof.
  intros Hal Hroot H.
  apply general_insert_Return in H as (_ & parent & np & Hw & Hn & Hk & ->).
  pose proof (walk_indices_allocated _ _ _ _ Hal Hroot Hw) as Hlt.
  rewrite lookup_app_l in Hn by done.
  split.
  2:{ rewrite list_lookup_insert_ne by lia. by rewrite list_lookup_middle. }
  rewrite (app_removelast_last ""%string (split_nonempty "-" path)) at 1.
  rewrite walk_indices_app. unfold bindM.
  rewrite (walk_indices_grown _ (Some root) (Some parent) h _
             (split_init_no_minus path)); [| |exact Hw].
  2:{ intros a n Ha. destruct (decide (a = parent)) as [->|Hap].
      - exists (with_child np (length h)).
        rewrite (lookup_put _ _ _ _ (lookup_grow _ _ _ _ Ha)). split; [done|].
        simplify_eq. intros i x Hi. simpl. by apply lookup_app_l_Some.
      - exists n. rewrite list_lookup_insert_ne by done.
        by rewrite (lookup_grow _ _ _ _ Ha). }
  simpl. rewrite Hk. unfold bindM. simpl.
  rewrite (get_node_lookup _ _ (with_child np (length h)))
    by (by eapply lookup_put, lookup_grow).
  simpl. rewrite length_app. simpl.
  destruct (Z.geb_spec (Z.of_nat (length (children np)))
              (Z.of_nat (length (children np) + 1))) as [|_]; [lia|].
  rewrite getitem_nonneg by lia. rewrite Nat2Z.id.
  by rewrite list_lookup_middle.
Qed.

Lemma general_insert_lands_witness :
  walk_indices (split "-" "0-0") (Some 0)
    (store_after (small_tree ;;; add_node_by_path (Some 0) "0-0" (PyInt 7) true))
  = Return (Some (length (store_after small_tree)))
      (store_after (small_tree ;;; add_node_by_path (Some 0) "0-0" (PyInt 7) true)) /\
  store_after (small_tree ;;; add_node_by_path (Some 0) "0-0" (PyInt 7) true)
    !! length (store_after small_tree) = Some (Node_init (PyInt 7)).
Proof.
  apply (general_insert_lands 0 "0-0" (PyInt 7) (store_after small_tree) (Some 0)).
  - remember (store_after small_tree) as store eqn:E. vm_compute in E. subst store.
    intros a n c Ha Hc.
    do 3 (destruct a as [|a];
          [injection Ha as <-; simpl in Hc; apply list_elem_of_In in Hc;
           simpl in Hc; simpl; intuition (simplify_eq; lia)|]).
    done.
  - vm_compute. lia.
  - vm_compute. reflexivity.
Defined.


(** ** Which node [delete_node] removes *)

Lemma scan_children_first cs : forall i v queued (h : heap) j h',
  scan_children cs i v queued h = Return (Hit j) h' ->
  i <= j /\
  forall k, k < j - i ->
    exists ck nk, cs !! k = Some (Some ck) /\ h !! ck = Some nk /\
                  py_eq (value nk) v = false.
Proof.
  induction cs as [|[child|] cs IH]; intros i v queued h j h' H; simpl in H;
    try done.
  apply bindM_Return in H as (c & h1 & Hc & H).
  apply get_node_Return in Hc as [Hc ->].
  destruct (py_eq (value c) v) eqn:Hv.
  - injection H as <- <-. split; [done|]. intros k Hk. lia.
  - apply IH in H as [Hle H]. split; [lia|].
    intros [|k] Hk; [by exists child, c|].
    apply H. lia.
Qed.

Lemma delete_loop_effect fuel : forall root queue v (h : heap) ret h',
  delete_loop fuel root queue v h = Return ret h' ->
  h' = h \/
  exists parent np np',
    h !! parent = Some np /\ h' = <[parent := np']> h /\
    ((exists i c nc,
        children np !! i = Some (Some c) /\ h !! c = Some nc /\
        py_eq (value nc) v = true /\
        (forall k, k < i ->
           exists ck nk, children np !! k = Some (Some ck) /\
                         h !! ck = Some nk /\ py_eq (value nk) v = false) /\
        children np' = delete i (children np)) \/
     (children np = [] /\
      exists c nc, h !! c = Some nc /\ py_eq (value nc) v = true /\
        ((left np = Some c /\ np' = with_left np None) \/
         (right np = Some c /\ np' = with_right np None)))).
Proof.
  induction fuel as [|fuel IH]; intros root queue v h ret h' H;
    destruct queue as [|current queue]; simpl in H;
    try (injection H as <- <-; by auto); try done.
  apply bindM_Return in H as (n & h1 & Hn & H).
  apply get_node_Return in Hn as [Hn ->].
  apply bindM_Return in H as (s & h1 & Hs & H).
  pose proof Hs as Hs'. apply scan_children_Return in Hs' as [-> Hhit].
  destruct s as [i|queued].
  - destruct Hhit as (child & nc & _ & Hi & Hc & Hv). rewrite Nat.sub_0_r in Hi.
    apply scan_children_first in Hs as [_ Hfirst].
    apply bindM_Return in H as (u & h1 & Hu & [= <- <-]).
    apply unlink_child_Return in Hu as (n0 & n' & Hn0 & -> & Hval & Hch).
    simplify_eq. right. exists current, n, n'. split; [done|]. split; [done|].
    left. exists i, child, nc. repeat (split; [done|]). split; [|done].
    intros k Hk. apply Hfirst. lia.
  - destruct (Nat.eqb_spec (length (children n)) 0) as [Hlen|]; [|by apply IH in H].
    apply nil_length_inv in Hlen.
    apply bindM_Return in H as (l_hit & h1 & Hl & H).
    assert (h1 = h /\ (l_hit = true -> exists c nc, left n = Some c /\
              h !! c = Some nc /\ py_eq (value nc) v = true)) as [-> Hl'].
    { unfold holds_value in Hl. destruct (left n) as [c|].
      - apply bindM_Return in Hl as (nc & h2 & Hc & [= <- <-]).
        apply get_node_Return in Hc as [Hc ->]. split; [done|]. eauto.
      - injection Hl as <- <-. done. }
    destruct l_hit.
    { destruct Hl' as (c & nc & Hlc & Hc & Hv); [done|].
      apply bindM_Return in H as (u & h1 & Hu & [= <- <-]).
      rewrite (set_left_Return _ _ _ _ Hn) in Hu. simplify_eq.
      right. exists current, n, (with_left n None). split; [done|]. split; [done|].
      right. split; [done|]. exists c, nc. eauto. }
    clear Hl Hl'.
    apply bindM_Return in H as (r_hit & h1 & Hr & H).
    assert (h1 = h /\ (r_hit = true -> exists c nc, right n = Some c /\
              h !! c = Some nc /\ py_eq (value nc) v = true)) as [-> Hr'].
    { unfold holds_value in Hr. destruct (right n) as [c|].
      - apply bindM_Return in Hr as (nc & h2 & Hc & [= <- <-]).
        apply get_node_Return in Hc as [Hc ->]. split; [done|]. eauto.
      - injection Hr as <- <-. done. }
    destruct r_hit; [|by apply IH in H].
    destruct Hr' as (c & nc & Hrc & Hc & Hv); [done|].
    apply bindM_Return in H as (u & h1 & Hu & [= <- <-]).
    rewrite (set_right_Return _ _ _ _ Hn) in Hu. simplify_eq.
    right. exists current, n, (with_right n None). split; [done|]. split; [done|].
    right. split; [done|]. exists c, nc. eauto 10.
Qed.

(** X11.  [delete_node] removes at most one node.  When it changes the
    store, either one parent's [children] list loses exactly one entry,
    the first one in list order whose node holds the value, or, at a
    parent whose [children] list is empty, the [left] link (else the
    [right] link) to a node holding the value is cleared. *)
Theorem delete_node_removes_first_match fuel root v (h : heap) ret h' :
  delete_node fuel (Some root) v h = Return ret h' -> h' <> h ->
  exists parent np np',
    h !! parent = Some np /\ h' = <[parent := np']> h /\
    ((exists i c nc,
        children np !! i = Some (Some c) /\ h !! c = Some nc /\
        py_eq (value nc) v = true /\
        (forall k, k < i ->
           exists ck nk, children np !! k = Some (Some ck) /\
                         h !! ck = Some nk /\ py_eq (value nk) v = false) /\
        children np' = delete i (children np)) \/
     (children np = [] /\
      exists c nc, h !! c = Some nc /\ py_eq (value nc) v = true /\
        ((left np = Some c /\ np' = with_left np None) \/
         (right np = Some c /\ np' = with_right np None)))).
Proof.
  unfold delete_node. intros H Hne.
  apply bindM_Return in H as (n & h1 & Hn & H).
  apply get_node_Return in Hn as [Hn ->].
  destruct (py_eq (value n) v); [by injection H as <- <-|].
  by apply delete_loop_effect in H as [->|H].
Qed.

Lemma delete_node_removes_first_match_witness :
  exists parent np np',
    store_after small_tree !! parent = Some np /\
    store_after (small_tree ;;; delete_node 3 (Some 0) (PyInt 3))
    = <[parent := np']> (store_after small_tree) /\
    ((exists i c nc,
        children np !! i = Some (Some c) /\
        store_after small_tree !! c = Some nc /\
        py_eq (value nc) (PyInt 3) = true /\
        (forall k, k < i ->
           exists ck nk, children np !! k = Some (Some ck) /\
                         store_after small_tree !! ck = Some nk /\
                         py_eq (value nk) (PyInt 3) = false) /\
        children np' = delete i (children np)) \/
     (children np = [] /\
      exists c nc, store_after small_tree !! c = Some nc /\
        py_eq (value nc) (PyInt 3) = true /\
        ((left np = Some c /\ np' = with_left np None) \/
         (right np = Some c /\ np' = with_right np None)))).
Proof.
  apply (delete_node_removes_first_match 3 0 (PyInt 3) (store_after small_tree)
           (Some 0)).
  - vm_compute. reflexivity.
  - vm_compute. discriminate.
Defined.

(** X12.  When no node of the store holds the value, [delete_node]
    changes nothing and hands back the root it was given. *)
Theorem delete_node_without_match fuel root v (h : heap) ret h' :
  (forall a n, h !! a = Some n -> py_eq (value n) v = false) ->
  delete_node fuel root v h = Return ret h' ->
  h' = h /\ ret = root.
Proof.
  intros Hno H. destruct root as [root|]; [|by injection H as <- <-].
  unfold delete_node in H.
  apply bindM_Return in H as (n & h1 & Hn & H).
  apply get_node_Return in Hn as [Hn ->].
  rewrite (Hno _ _ Hn) in H.
  apply delete_loop_Return in H as [-> [->|H]]; [done|].
  destruct H as (parent & np & np' & child & nc & _ & _ & Hc & Hv & _).
  by rewrite (Hno _ _ Hc) in Hv.
Qed.

Lemma delete_node_without_match_witness :
  store_after small_tree = store_after small_tree /\ Some 0 = Some 0.
Proof.
  apply (delete_node_without_match 4 (Some 0) (PyInt 9) (store_after small_tree)
           (Some 0) (store_after small_tree)).
  - remember (store_after small_tree) as store eqn:E. vm_compute in E. subst store.
    intros a n Ha. do 3 (destruct a as [|a]; [by injection Ha as <-|]). done.
  - vm_compute. reflexivity.
Defined.


(** ** General trees *)

Module GeneralFacts.
Import General.

Lemma gbind_Return {A B} (c : M A) (k : A -> M B) s b s' :
  bindM c k s = Return b s' <->
  exists a s1, c s = Return a s1 /\ k a s1 = Return b s'.
Proof.
  unfold bindM. split.
  - destruct (c s) as [a s1| | |]; try discriminate. eauto.
  - intros (a & s1 & -> & Hk). exact Hk.
Qed.

Lemma gget_Return a (s : store) n s' :
  get_node a s = Return n s' <-> s !! a = Some n /\ s' = s.
Proof.
  unfold get_node. destruct (s !! a); split; intros H; try done.
  - by injection H as -> ->.
  - by destruct H as [[= ->] ->].
  - by destruct H.
Qed.

Lemma gget_lookup a (s : store) n : s !! a = Some n -> get_node a s = Return n s.
Proof. intros E. unfold get_node. by rewrite E. Qed.

Lemma gset_children_Return a cs (s : store) n :
  s !! a = Some n ->
  set_children a cs s
  = Return tt (<[a := {| value := value n; children := cs |}]> s).
Proof. intros E. unfold set_children. by rewrite E. Qed.

(** X13.  [add_general_node_by_path] is not append-only.  At the parent
    the walk has resolved, a last index equal to [len(children)]
    appends the new node; a smaller one inserts it at that position,
    the children from there on moving one place to the right; a larger
    one raises "Index ... out of range".  Only the parent is rewritten
    and it keeps its value. *)
Theorem general_node_insert_before root path v (s : store) init last_idx
    parent np k :
  path <> ""%string -> split "-" path = init ++ [last_idx] ->
  walk_indices init root s = Return parent s ->
  s !! parent = Some np -> int last_idx = Some k ->
  add_general_node_by_path (Some root) path v s =
  if (Z.of_nat (length (children np)) <? k)%Z
  then Raise (ValueError (IndexOutOfRange k)) (s ++ [GeneralNode_init v])
  else Return (Some root)
         (<[parent := {| value := value np;
                         children := take (Z.to_nat k) (children np)
                                     ++ length s :: drop (Z.to_nat k) (children np) |}]>
            (s ++ [GeneralNode_init v])).
Proof.
  intros Hp Hs Hw Hn Hk.
  assert (0 <= k)%Z as Hk0.
  { apply (int_nonneg last_idx); [|done]. apply (split_no_sep "-" path).
    rewrite Hs. apply elem_of_app. right. by left. }
  unfold add_general_node_by_path.
  apply String.eqb_neq in Hp as ->. rewrite Hs, removelast_last, last_last, Hk.
  unfold bindM at 1. rewrite Hw.
  unfold bindM, new_GeneralNode.
  pose proof (lookup_app_l_Some _ [GeneralNode_init v] _ _ Hn) as Hg.
  rewrite (gget_lookup _ _ np Hg).
  destruct (Z.eqb_spec k (Z.of_nat (length (children np)))) as [->|Hne].
  - rewrite (gset_children_Return _ _ _ _ Hg).
    by rewrite Z.ltb_irrefl, Nat2Z.id, firstn_all, drop_all.
  - destruct (Z.ltb_spec k (Z.of_nat (length (children np)))) as [Hlt|Hge].
    + destruct (Z.ltb_spec (Z.of_nat (length (children np))) k); [lia|].
      rewrite (gset_children_Return _ _ _ _ Hg).
      unfold list_insert_at. destruct (Z.ltb_spec k 0); [lia|].
      by rewrite Nat.min_l by lia.
    + destruct (Z.ltb_spec (Z.of_nat (length (children np))) k); [done|lia].
Qed.

Lemma general_node_insert_before_witness :
  add_general_node_by_path (Some 0) "0" (PyStr "COO") (store_after small_tree) =
  Return (Some 0)
    [ {| value := PyStr "CEO"; children := [3; 1; 2] |};
      {| value := PyStr "CTO"; children := [] |};
      {| value := PyStr "CFO"; children := [] |};
      {| value := PyStr "COO"; children := [] |} ].
Proof.
  apply (general_node_insert_before 0 "0" (PyStr "COO") (store_after small_tree)
           [] "0" 0 {| value := PyStr "CEO"; children := [1; 2] |} 0%Z);
    try done.
Defined.


Lemma find_general_node_spec fuel : forall r v (s : store) res s',
  find_general_node fuel (Some r) v s = Return res s' ->
  s' = s /\
  match res with
  | Some a => descends s r a /\
              exists n, s !! a = Some n /\ py_eq (value n) v = true
  | None => forall b n, descends s r b -> s !! b = Some n ->
                        py_eq (value n) v = false
  end.
Proof.
  induction fuel as [|fuel IH]; intros r v s res s' H; [done|].
  simpl in H. apply gbind_Return in H as (n & s1 & Hn & H).
  apply gget_Return in Hn as [Hn ->].
  destruct (py_eq (value n) v) eqn:Hv.
  { injection H as <- <-. split; [done|]. split; [apply descends_here|eauto]. }
  assert (forall cs res s',
    first_found (fun child => find_general_node fuel (Some child) v) cs s
    = Return res s' ->
    s' = s /\
    match res with
    | Some a => (exists c, c ∈ cs /\ descends s c a) /\
                exists m, s !! a = Some m /\ py_eq (value m) v = true
    | None => forall c b m, c ∈ cs -> descends s c b -> s !! b = Some m ->
                            py_eq (value m) v = false
    end) as Hloop.
  { clear H. induction cs as [|c cs IHcs]; intros res0 s0 H; simpl in H.
    - injection H as <- <-. split; [done|]. intros c b m Hc. by apply elem_of_nil in Hc.
    - apply gbind_Return in H as (result & s1 & Hr & H).
      apply IH in Hr as [-> Hr].
      destruct result as [a|].
      + injection H as <- <-. split; [done|]. destruct Hr as [Hd Hm].
        split; [|done]. exists c. split; [by left|done].
      + apply IHcs in H as [-> H]. split; [done|].
        destruct res0 as [a|].
        * destruct H as [(c' & Hc' & Hd) Hm]. split; [|done].
          exists c'. split; [by right|done].
        * intros c' b m [->|Hc']%elem_of_cons Hd Hb; [by eapply Hr|by eapply H]. }
  apply Hloop in H as [-> H]. split; [done|].
  destruct res as [a|].
  - destruct H as [(c & Hc & Hd) Hm]. split; [|done].
    eapply descends_child; eauto.
  - intros b m Hd Hb. destruct Hd as [|r n' c b Hn' Hc Hd]; [by simplify_eq|].
    simplify_eq. by eapply H.
Qed.

(** X14.  [find_general_node] never writes to the store.  A node it
    returns is the root or a descendant of it and holds a value equal to
    the one sought; when it returns [None], neither the root nor any
    descendant holds such a value. *)
Theorem find_general_node_correct fuel r v (s : store) res s' :
  find_general_node fuel (Some r) v s = Return res s' ->
  s' = s /\
  match res with
  | Some a => descends s r a /\
              exists n, s !! a = Some n /\ py_eq (value n) v = true
  | None => forall b n, descends s r b -> s !! b = Some n ->
                        py_eq (value n) v = false
  end.
Proof. apply find_general_node_spec. Qed.

Lemma find_general_node_correct_witness :
  store_after small_tree = store_after small_tree /\
  descends (store_after small_tree) 0 2 /\
  exists n, store_after small_tree !! 2 = Some n /\
            py_eq (value n) (PyStr "CFO") = true.
Proof.
  apply (find_general_node_correct 2 0 (PyStr "CFO") (store_after small_tree)
           (Some 2) (store_after small_tree)).
  vm_compute. reflexivity.
Defined.


Lemma prunes_refl v (s : store) : prunes v s s.
Proof. split; [done|]. intros a n Ha. exists n. repeat split; auto. Qed.

Lemma prunes_trans v (s1 s2 s3 : store) :
  prunes v s1 s2 -> prunes v s2 s3 -> prunes v s1 s3.
Proof.
  intros [L12 H12] [L23 H23]. split; [congruence|].
  intros a n1 H1. destruct (H12 a n1 H1) as (n2 & H2 & V2 & S2 & D2).
  destruct (H23 a n2 H2) as (n3 & H3 & V3 & S3 & D3).
  exists n3. split; [done|]. split; [congruence|].
  split; [by etrans|].
  intros c Hc. destruct (D2 c Hc) as [Hc2|?]; [|by right].
  destruct (D3 c Hc2) as [?|(nc & Hnc & Hv)]; [by left|]. right.
  assert (is_Some (s1 !! c)) as [nc1 Hnc1].
  { apply lookup_lt_is_Some. apply lookup_lt_Some in Hnc. lia. }
  destruct (H12 c nc1 Hnc1) as (nc2 & Hnc2 & Vc & _).
  exists nc1. split; [done|]. simplify_eq. by rewrite <- Vc.
Qed.

Lemma elem_of_delete_or {A} (l : list A) i c :
  c ∈ l -> c ∈ delete i l \/ l !! i = Some c.
Proof.
  revert i. induction l as [|x l IH]; intros i Hc; [by apply elem_of_nil in Hc|].
  destruct i as [|i]; simpl.
  - apply elem_of_cons in Hc as [->|Hc]; auto.
  - apply elem_of_cons in Hc as [->|Hc]; [left; by left|].
    destruct (IH i Hc); [left; by right | by right].
Qed.

Lemma prunes_pop v (s : store) r n i child nc :
  s !! r = Some n -> children n !! i = Some child ->
  s !! child = Some nc -> py_eq (value nc) v = true ->
  prunes v s (<[r := {| value := value n; children := delete i (children n) |}]> s).
Proof.
  intros Hn Hi Hc Hv. split; [by rewrite length_insert|].
  intros a m Ha. destruct (decide (a = r)) as [->|Hne].
  - simplify_eq. eexists. split; [by eapply list_lookup_insert_eq, lookup_lt_Some|].
    split; [done|]. simpl. split; [apply sublist_delete|].
    intros c Hcin. destruct (elem_of_delete_or _ i _ Hcin) as [?|E]; [by left|].
    right. simplify_eq. eauto.
  - exists m. rewrite list_lookup_insert_ne by done. repeat split; auto.
Qed.

Lemma scan_prunes r v recurse :
  (forall child (s : store) u s', recurse child s = Return u s' -> prunes v s s') ->
  forall steps i (s : store) b s',
    scan r v recurse steps i s = Return b s' -> prunes v s s'.
Proof.
  intros Hrec. induction steps as [|steps IH]; intros i s b s' H; simpl in H;
    apply gbind_Return in H as (n & s1 & Hn & H);
    apply gget_Return in Hn as [Hn ->];
    (destruct (children n !! i) as [child|] eqn:Hi;
       [|injection H as _ <-; apply prunes_refl]); [done|].
  apply gbind_Return in H as (c & s1 & Hc & H).
  apply gget_Return in Hc as [Hc ->].
  destruct (py_eq (value c) v) eqn:Hv.
  - apply gbind_Return in H as (u & s1 & Hs & [= _ <-]).
    rewrite (gset_children_Return _ _ _ _ Hn) in Hs. simplify_eq.
    by eapply prunes_pop.
  - apply gbind_Return in H as (u & s1 & Hr & H).
    eapply prunes_trans; [by eapply Hrec | by eapply IH].
Qed.

Lemma delete_general_node_S fuel r v (s : store) :
  delete_general_node (S fuel) (Some r) v s =
  (do! n := get_node r in
   if py_eq (value n) v then retM None
   else
     scan r v (fun child => delete_general_node fuel (Some child) v ;;! retM tt)
       (S fuel) 0 ;;!
     retM (Some r)) s.
Proof. reflexivity. Qed.

Lemma delete_general_node_spec fuel : forall root v (s : store) ret s',
  delete_general_node fuel root v s = Return ret s' ->
  prunes v s s' /\ (ret = None \/ ret = root).
Proof.
  induction fuel as [|fuel IH]; intros [r|] v s ret s' H;
    try (by simpl in H);
    try (simpl in H; injection H as <- <-; split; [apply prunes_refl|by left]).
  rewrite delete_general_node_S in H.
  apply gbind_Return in H as (n & s1 & Hn & H).
  apply gget_Return in Hn as [Hn ->].
  destruct (py_eq (value n) v).
  { injection H as <- <-. split; [apply prunes_refl|by left]. }
  apply gbind_Return in H as (b & s1 & Hs & [= <- <-]).
  split; [|by right]. eapply scan_prunes; [|exact Hs].
  intros child s0 u s0' Hr.
  apply gbind_Return in Hr as (x & s2 & Hr & [= _ <-]).
  by apply IH in Hr as [? _].
Qed.

(** X15.  [delete_general_node] returns [None] without touching the
    store when the root holds the value.  Otherwise it returns the root
    it was given; no object is added or dropped, every node keeps its
    value, and every [children] list keeps its order and loses only
    entries whose node holds the value. *)
Theorem delete_general_node_prunes fuel r v (s : store) ret s' n :
  s !! r = Some n ->
  delete_general_node fuel (Some r) v s = Return ret s' ->
  (py_eq (value n) v = true -> ret = None /\ s' = s) /\
  (py_eq (value n) v = false -> ret = Some r) /\
  length s' = length s /\
  forall a m, s !! a = Some m ->
    exists m', s' !! a = Some m' /\ value m' = value m /\
      sublist (children m') (children m) /\
      forall c, c ∈ children m ->
        c ∈ children m' \/
        exists nc, s !! c = Some nc /\ py_eq (value nc) v = true.
Proof.
  intros Hn H. pose proof (delete_general_node_spec _ _ _ _ _ _ H) as [[L P] _].
  split; [|split; [|by split]].
  - intros Hv. destruct fuel as [|fuel]; [done|].
    rewrite delete_general_node_S in H.
    unfold bindM in H. rewrite (gget_lookup _ _ _ Hn), Hv in H.
    by injection H as <- <-.
  - intros Hv. destruct fuel as [|fuel]; [done|].
    rewrite delete_general_node_S in H.
    unfold bindM at 1 in H. rewrite (gget_lookup _ _ _ Hn), Hv in H.
    by apply gbind_Return in H as (b & s1 & _ & [= <- _]).
Qed.

Lemma delete_general_node_prunes_witness :
  (py_eq (PyStr "CEO") (PyStr "CFO") = true ->
   Some 0 = None /\
   store_after (small_tree ;;! delete_general_node 3 (Some 0) (PyStr "CFO"))
   = store_after small_tree) /\
  (py_eq (PyStr "CEO") (PyStr "CFO") = false -> Some 0 = Some 0) /\
  length (store_after (small_tree ;;! delete_general_node 3 (Some 0) (PyStr "CFO")))
  = length (store_after small_tree) /\
  forall a m, store_after small_tree !! a = Some m ->
    exists m',
      store_after (small_tree ;;! delete_general_node 3 (Some 0) (PyStr "CFO"))
        !! a = Some m' /\ value m' = value m /\
      sublist (children m') (children m) /\
      forall c, c ∈ children m ->
        c ∈ children m' \/
        exists nc, store_after small_tree !! c = Some nc /\
                   py_eq (value nc) (PyStr "CFO") = true.
Proof.
  apply (delete_general_node_prunes 3 0 (PyStr "CFO") (store_after small_tree)
           (Some 0)
           (store_after (small_tree ;;! delete_general_node 3 (Some 0) (PyStr "CFO")))
           {| value := PyStr "CEO"; children := [1; 2] |}).
  - vm_compute. reflexivity.
  - vm_compute. reflexivity.
Defined.


(** X16.  [edit_general_node] either returns [False] and leaves the
    store as it was, or returns [True] after overwriting the value of
    one node, the root or a descendant of it, that held a value equal
    to the old one; that node keeps its [children]. *)
Theorem edit_general_node_effect fuel r old new (s : store) b s' :
  edit_general_node fuel (Some r) old new s = Return b s' ->
  (b = false /\ s' = s) \/
  (b = true /\ exists a n,
     descends s r a /\ s !! a = Some n /\ py_eq (value n) old = true /\
     s' = <[a := {| value := new; children := children n |}]> s).
Proof.
  unfold edit_general_node. intros H.
  apply gbind_Return in H as (node & s1 & Hf & H).
  apply find_general_node_spec in Hf as [-> Hf].
  destruct node as [a|]; [|injection H as <- <-; by left].
  destruct Hf as (Hd & n & Hn & Hv).
  apply gbind_Return in H as (u & s1 & Hs & [= <- <-]).
  unfold set_value in Hs. rewrite Hn in Hs. simplify_eq.
  right. split; [done|]. eauto 10.
Qed.

Lemma edit_general_node_effect_witness :
  (true = false /\
   store_after (small_tree ;;!
                edit_general_node 2 (Some 0) (PyStr "CFO") (PyStr "COO"))
   = store_after small_tree) \/
  (true = true /\ exists a n,
     descends (store_after small_tree) 0 a /\
     store_after small_tree !! a = Some n /\
     py_eq (value n) (PyStr "CFO") = true /\
     store_after (small_tree ;;!
                  edit_general_node 2 (Some 0) (PyStr "CFO") (PyStr "COO"))
     = <[a := {| value := PyStr "COO"; children := children n |}]>
         (store_after small_tree)).
Proof.
  apply (edit_general_node_effect 2 0 (PyStr "CFO") (PyStr "COO")
           (store_after small_tree) true).
  vm_compute. reflexivity.
Defined.

End GeneralFacts.


(** ** What [find_node] and [delete_node] can raise *)

Lemma find_loop_Raise fuel : forall queue v (h : heap) e h',
  find_loop fuel queue v h = Raise e h' ->
  e = AttributeError /\ h' = h /\
  (None ∈ queue \/ exists a n, h !! a = Some n /\ None ∈ children n).
Proof.
  induction fuel as [|fuel IH]; intros [|current queue] v h e h' H; simpl in H;
    try done.
  apply bindM_Raise in H as [H|(n & h1 & Hn & H)].
  { destruct current as [cur|]; simpl in H.
    - by apply get_node_never_raises in H.
    - injection H as <- <-. split; [done|]. split; [done|]. left. by left. }
  destruct current as [cur|]; [|done]. apply get_node_Return in Hn as [Hn ->].
  destruct (py_eq (value n) v); [done|].
  destruct (Nat.ltb 0 (length (children n))).
  - apply IH in H as (-> & -> & [Hq|Hex]); (split; [done|]); (split; [done|]);
      [|by right].
    apply elem_of_app in Hq as [Hq|Hq]; [left; by right|right; eauto].
  - apply IH in H as (-> & -> & [Hq|Hex]); (split; [done|]); (split; [done|]);
      [|by right].
    apply elem_of_app in Hq as [Hq|Hq]; [left; by right|].
    exfalso. apply elem_of_app in Hq as [Hq|Hq];
      apply list_elem_of_fmap in Hq as (x & [=] & _).
Qed.

(** X17.  The only exception [find_node] and [edit_node] raise is
    [AttributeError], and only in a store where some [children] list
    holds [None]; the store is not written. *)
Theorem find_node_raises_only_on_placeholder fuel root v new (h : heap) e h' :
  find_node fuel root v h = Raise e h' \/
  edit_node fuel root v new h = Raise e h' ->
  e = AttributeError /\ h' = h /\
  exists a n, h !! a = Some n /\ None ∈ children n.
Proof.
  assert (find_node fuel root v h = Raise e h' ->
          e = AttributeError /\ h' = h /\
          exists a n, h !! a = Some n /\ None ∈ children n) as Hfind.
  { destruct root as [r|]; [|done]. intros H.
    apply find_loop_Raise in H as (-> & -> & [Hq|Hex]); [|done].
    by apply list_elem_of_singleton in Hq. }
  intros [H|H]; [by apply Hfind|].
  unfold edit_node in H.
  apply bindM_Raise in H as [H|(node & h1 & _ & H)]; [by apply Hfind|].
  destruct node as [a|]; [|done].
  apply bindM_Raise in H as [H|(u & h2 & _ & H)]; [|done].
  unfold set_value, bindM, put_node, get_node in H. by destruct (h1 !! a).
Qed.

Lemma find_node_raises_only_on_placeholder_witness :
  AttributeError = AttributeError /\
  store_after right_only_tree = store_after right_only_tree /\
  exists a n, store_after right_only_tree !! a = Some n /\ None ∈ children n.
Proof.
  apply (find_node_raises_only_on_placeholder 3 (Some 0) (PyInt 3) (PyInt 9)
           (store_after right_only_tree) AttributeError
           (store_after right_only_tree)).
  left. vm_compute. reflexivity.
Defined.

Lemma scan_children_Raise cs : forall i v queued (h : heap) e h',
  scan_children cs i v queued h = Raise e h' ->
  e = AttributeError /\ h' = h /\ None ∈ cs.
Proof.
  induction cs as [|[child|] cs IH]; intros i v queued h e h' H; simpl in H;
    try done.
  - apply bindM_Raise in H as [H|(c & h1 & Hc & H)];
      [by apply get_node_never_raises in H|].
    apply get_node_Return in Hc as [Hc ->].
    destruct (py_eq (value c) v); [done|].
    apply IH in H as (-> & -> & Hin). split; [done|]. split; [done|]. by right.
  - injection H as <- <-. split; [done|]. split; [done|]. by left.
Qed.

Lemma set_left_never_raises a x (h : heap) e h' :
  set_left a x h = Raise e h' -> False.
Proof. unfold set_left, bindM, put_node, get_node. by destruct (h !! a). Qed.

Lemma set_right_never_raises a x (h : heap) e h' :
  set_right a x h = Raise e h' -> False.
Proof. unfold set_right, bindM, put_node, get_node. by destruct (h !! a). Qed.

Lemma set_children_never_raises a x (h : heap) e h' :
  set_children a x h = Raise e h' -> False.
Proof. unfold set_children, bindM, put_node, get_node. by destruct (h !! a). Qed.

Lemma unlink_child_never_raises current i (h : heap) e h' :
  unlink_child current i h = Raise e h' -> False.
Proof.
  unfold unlink_child. intros H.
  apply bindM_Raise in H as [H|(n & h1 & Hn & H)];
    [by apply get_node_never_raises in H|].
  apply bindM_Raise in H as [H|(u1 & h2 & _ & H)];
    [by apply set_children_never_raises in H|].
  set (cs := delete i (children n)) in *.
  apply bindM_Raise in H as [H|(u2 & h3 & _ & H)].
  - destruct (Nat.eqb i 0); cbn [andb] in H; [|done].
    destruct (Nat.leb_spec 1 (length cs)); [|by apply set_left_never_raises in H].
    destruct (cs !! 0) as [c|] eqn:Hk; [by apply set_left_never_raises in H|].
    apply lookup_ge_None in Hk. lia.
  - destruct (Nat.leb i 1); cbn [andb] in H.
    + destruct (Nat.leb_spec 2 (length cs)).
      * destruct (cs !! 1) as [c|] eqn:Hk; [by apply set_right_never_raises in H|].
        apply lookup_ge_None in Hk. lia.
      * destruct (Nat.eqb i 1); [by apply set_right_never_raises in H|done].
    + destruct (Nat.eqb i 1); [by apply set_right_never_raises in H|done].
Qed.

Lemma holds_value_never_raises x v (h : heap) e h' :
  holds_value x v h <> Raise e h'.
Proof.
  destruct x as [a|]; simpl; [|done]. intros H.
  apply bindM_Raise in H as [H|(c & h1 & _ & H)]; [|done].
  by apply get_node_never_raises in H.
Qed.

Lemma holds_value_same_store x v (h : heap) b h' :
  holds_value x v h = Return b h' -> h' = h.
Proof.
  destruct x as [a|]; simpl; [|by intros [= _ <-]]. intros H.
  apply bindM_Return in H as (c & h1 & Hc & [= _ <-]).
  by apply get_node_Return in Hc as [_ ->].
Qed.

Lemma delete_loop_Raise fuel : forall root queue v (h : heap) e h',
  delete_loop fuel root queue v h = Raise e h' ->
  e = AttributeError /\ h' = h /\
  exists a n, h !! a = Some n /\ None ∈ children n.
Proof.
  induction fuel as [|fuel IH]; intros root [|current queue] v h e h' H;
    simpl in H; try done.
  apply bindM_Raise in H as [H|(n & h1 & Hn & H)];
    [by apply get_node_never_raises in H|].
  apply get_node_Return in Hn as [Hn ->].
  apply bindM_Raise in H as [H|(s & h1 & Hs & H)].
  { apply scan_children_Raise in H as (-> & -> & Hin). eauto 10. }
  apply scan_children_Return in Hs as [-> _].
  destruct s as [i|queued].
  - apply bindM_Raise in H as [H|(u & h1 & _ & H)]; [|done].
    by apply unlink_child_never_raises in H.
  - destruct (Nat.eqb (length (children n)) 0); [|by apply IH in H].
    apply bindM_Raise in H as [H|(l_hit & h1 & Hl & H)];
      [by apply holds_value_never_raises in H|].
    apply holds_value_same_store in Hl as ->.
    destruct l_hit.
    { apply bindM_Raise in H as [H|(u & h1 & _ & H)]; [|done].
      by apply set_left_never_raises in H. }
    apply bindM_Raise in H as [H|(r_hit & h1 & Hr & H)];
      [by apply holds_value_never_raises in H|].
    apply holds_value_same_store in Hr as ->.
    destruct r_hit; [|by apply IH in H].
    apply bindM_Raise in H as [H|(u & h1 & _ & H)]; [|done].
    by apply set_right_never_raises in H.
Qed.

(** X18.  The only exception [delete_node] raises is [AttributeError],
    and only in a store where some [children] list holds [None]; when
    it raises, nothing has been removed. *)
Theorem delete_node_raises_only_on_placeholder fuel root v (h : heap) e h' :
  delete_node fuel root v h = Raise e h' ->
  e = AttributeError /\ h' = h /\
  exists a n, h !! a = Some n /\ None ∈ children n.
Proof.
  destruct root as [r|]; [|done]. unfold delete_node. intros H.
  apply bindM_Raise in H as [H|(n & h1 & Hn & H)];
    [by apply get_node_never_raises in H|].
  apply get_node_Return in Hn as [Hn ->].
  destruct (py_eq (value n) v); [done|].
  by apply delete_loop_Raise in H.
Qed.

Lemma delete_node_raises_only_on_placeholder_witness :
  AttributeError = AttributeError /\
  store_after right_only_tree = store_after right_only_tree /\
  exists a n, store_after right_only_tree !! a = Some n /\ None ∈ children n.
Proof.
  apply (delete_node_raises_only_on_placeholder 3 (Some 0) (PyInt 3)
           (store_after right_only_tree) AttributeError
           (store_after right_only_tree)).
  vm_compute. reflexivity.
Defined.


(** ** More on the document codec *)

(** X19.  [_tree_to_dict] does not write to the store, and its result
    depends on nothing but the values and the shape along [left] and
    [right]: two trees of the same shape, in any two stores and
    whatever their [children] lists hold, give the same document. *)
Theorem tree_to_dict_depends_on_shape depth : forall (h h2 : heap) a a2 t,
  shape_of depth h a = Some t -> shape_of depth h2 a2 = Some t ->
  exists doc,
    _tree_to_dict depth (Some a) h = Return doc h /\
    _tree_to_dict depth (Some a2) h2 = Return doc h2.
Proof.
  induction depth as [|depth IH]; intros h h2 a a2 t Ht Ht2; [done|].
  simpl in Ht, Ht2.
  destruct (h !! a) as [n|] eqn:Hn; [|done].
  destruct (h2 !! a2) as [n2|] eqn:Hn2; [|done].
  destruct (below (shape_of depth h) (left n)) as [l|] eqn:Hl; [|done].
  destruct (below (shape_of depth h) (right n)) as [r|] eqn:Hr; [|done].
  destruct (below (shape_of depth h2) (left n2)) as [l2|] eqn:Hl2; [|done].
  destruct (below (shape_of depth h2) (right n2)) as [r2|] eqn:Hr2; [|done].
  injection Ht as <-. injection Ht2 as Hv <- <-.
  assert (forall o o2 ot,
    below (shape_of depth h) o = Some ot ->
    below (shape_of depth h2) o2 = Some ot ->
    match o, o2 with
    | Some c, Some c2 => exists d,
        _tree_to_dict depth o h = Return d h /\
        _tree_to_dict depth o2 h2 = Return d h2
    | None, None => True
    | _, _ => False
    end) as Hlink.
  { intros [c|] [c2|] ot Ho Ho2; simpl in Ho, Ho2; try done.
    - destruct (shape_of depth h c) as [tc|] eqn:Hc; [|done].
      destruct (shape_of depth h2 c2) as [tc2|] eqn:Hc2; [|done].
      simpl in Ho, Ho2. assert (tc2 = tc) as -> by congruence.
      exact (IH _ _ _ _ _ Hc Hc2).
    - destruct (shape_of depth h c); by simplify_eq.
    - destruct (shape_of depth h2 c2); by simplify_eq. }
  pose proof (Hlink _ _ _ Hl Hl2) as HL. pose proof (Hlink _ _ _ Hr Hr2) as HR.
  rewrite (tree_to_dict_S _ _ _ _ Hn), (tree_to_dict_S _ _ _ _ Hn2).
  cbv zeta. unfold bindM, retM. rewrite Hv.
  destruct (left n), (left n2); try done; destruct (right n), (right n2); try done;
    repeat match goal with
           | H : exists d, _ /\ _ |- _ => destruct H as (? & -> & ->)
           end; eauto.
Qed.

Lemma tree_to_dict_depends_on_shape_witness :
  exists doc,
    _tree_to_dict 2 (Some 0) (store_after small_tree)
    = Return doc (store_after small_tree) /\
    _tree_to_dict 2 (Some 3)
      (store_after (let! d := small_tree ;;; _tree_to_dict 2 (Some 0) in
                    _dict_to_tree d))
    = Return doc
        (store_after (let! d := small_tree ;;; _tree_to_dict 2 (Some 0) in
                      _dict_to_tree d)).
Proof.
  apply (tree_to_dict_depends_on_shape 2 (store_after small_tree)
           (store_after (let! d := small_tree ;;; _tree_to_dict 2 (Some 0) in
                         _dict_to_tree d)) 0 3
           (Shape (PyInt 1) (Some (Shape (PyInt 2) None None))
                            (Some (Shape (PyInt 3) None None)))).
  all: vm_compute; reflexivity.
Defined.

Lemma tree_to_dict_same_store depth : forall root (h : heap) doc h',
  _tree_to_dict depth root h = Return doc h' -> h' = h.
Proof.
  induction depth as [|depth IH]; intros [a|] h doc h' H; simpl in H;
    try done; try (by injection H as _ <-).
  apply bindM_Return in H as (n & h1 & Hn & H).
  apply get_node_Return in Hn as [_ ->].
  apply bindM_Return in H as (d1 & h1 & H1 & H).
  apply bindM_Return in H as (d2 & h2 & H2 & [= _ <-]).
  assert (h1 = h) as ->.
  { destruct (left n); [|by injection H1 as _ <-].
    apply bindM_Return in H1 as (l & h3 & Hl & [= _ <-]). by eapply IH. }
  destruct (right n); [|by injection H2 as _ <-].
  apply bindM_Return in H2 as (r & h3 & Hr & [= _ <-]). by eapply IH.
Qed.

(** X20.  The document of a node is a dict whose keys are ['value'],
    then ['left'] if the node has a left child, then ['right'] if it has
    a right child, in this order and no others; ['value'] maps to the
    node's value.  An absent child gives no key (not a key mapped to
    [None]). *)
Theorem tree_to_dict_keys depth a (h : heap) n doc h' :
  h !! a = Some n ->
  _tree_to_dict depth (Some a) h = Return doc h' ->
  h' = h /\
  exists items,
    doc = PyDict items /\
    items.*1 = ["value"%string]
               ++ (if left n is Some _ then ["left"%string] else [])
               ++ (if right n is Some _ then ["right"%string] else []) /\
    dict_get "value" items = Some (value n).
Proof.
  intros Hn H. split; [by eapply tree_to_dict_same_store|].
  destruct depth as [|depth]; [done|].
  rewrite (tree_to_dict_S _ _ _ _ Hn) in H. cbv zeta in H.
  apply bindM_Return in H as (d1 & h1 & H1 & H).
  apply bindM_Return in H as (d2 & h2 & H2 & [= <- _]).
  destruct (left n).
  - apply bindM_Return in H1 as (l & h3 & _ & [= <- _]).
    destruct (right n).
    + apply bindM_Return in H2 as (r & h4 & _ & [= <- _]). by eexists.
    + injection H2 as <- _. by eexists.
  - injection H1 as <- _.
    destruct (right n).
    + apply bindM_Return in H2 as (r & h4 & _ & [= <- _]). by eexists.
    + injection H2 as <- _. by eexists.
Qed.

Lemma tree_to_dict_keys_witness :
  store_after small_tree = store_after small_tree /\
  exists items,
    PyDict [("value"%string, PyInt 1);
            ("left"%string, PyDict [("value"%string, PyInt 2)]);
            ("right"%string, PyDict [("value"%string, PyInt 3)])]
    = PyDict items /\
    items.*1 = ["value"%string]
               ++ (if Some 1 is Some _ then ["left"%string] else [])
               ++ (if Some 2 is Some _ then ["right"%string] else []) /\
    dict_get "value" items = Some (PyInt 1).
Proof.
  apply (tree_to_dict_keys 2 0 (store_after small_tree)
           {| value := PyInt 1; left := Some 1; right := Some 2;
              children := [Some 1; Some 2] |});
    vm_compute; reflexivity.
Defined.













(** ** Binary paths ignore case *)

Lemma walk_directions_upper ds : forall ds' current (h : heap) target h',
  Forall2 (fun c c' => upper c = upper c') ds ds' ->
  walk_directions ds current h = Return target h' ->
  walk_directions ds' current h = Return target h'.
Proof.
  induction ds as [|d ds IH]; intros ds' current h target h' Hf H;
    inversion Hf as [|? d' ? ds2 Hd Hrest]; subst; [done|].
  simpl in *. rewrite <- Hd.
  destruct (Ascii.eqb (upper d) "L").
  { apply bindM_Return in H as (n & h1 & Hn & H). unfold bindM. rewrite Hn.
    destruct (left n); [by eapply IH|done]. }
  destruct (Ascii.eqb (upper d) "R"); [|done].
  apply bindM_Return in H as (n & h1 & Hn & H). unfold bindM. rewrite Hn.
  destruct (right n); [by eapply IH|done].
Qed.

(** X22.  Binary paths are read without regard to case: two paths that
    agree character by character after [upper()] lead to the same
    insert; when one returns, the other returns the same root and the
    same store. *)
Theorem binary_path_ignores_case root path path' v (h : heap) r h1 :
  Forall2 (fun c c' => upper c = upper c')
    (list_ascii_of_string path) (list_ascii_of_string path') ->
  add_node_by_path root path v false h = Return r h1 ->
  add_node_by_path root path' v false h = Return r h1.
Proof.
  intros Hf. unfold add_node_by_path. destruct root as [root|]; [|done].
  destruct (String.eqb path "") eqn:Ep; [done|].
  assert (list_ascii_of_string path <> []) as Hne by (destruct path; [done|discriminate]).
  assert (String.eqb path' "" = false) as ->.
  { destruct path'; [|done]. simpl in Hf. inversion Hf as [E|]; by rewrite <- E in Hne. }
  revert Hf. rewrite (app_removelast_last "000"%char Hne).
  set (pre := removelast (list_ascii_of_string path)).
  set (c := List.last (list_ascii_of_string path) "000"%char).
  intros Hf. apply Forall2_app_inv_l in Hf as (pre' & k & Hpre & Hk & ->).
  inversion Hk as [|? c' ? ? Hc Hnil]; subst. inversion Hnil; subst.
  rewrite !removelast_last, !last_last. rewrite <- Hc.
  intros H. apply bindM_Return in H as (current & h0 & Hw & H).
  unfold bindM at 1. by rewrite (walk_directions_upper _ _ _ _ _ _ Hpre Hw).
Qed.

Lemma binary_path_ignores_case_witness :
  add_node_by_path (Some 0) "Rl" (PyInt 6) false (store_after small_tree)
  = Return (Some 0)
      (store_after (small_tree ;;; add_node_by_path (Some 0) "rL" (PyInt 6) false)).
Proof.
  apply (binary_path_ignores_case (Some 0) "rL" "Rl" (PyInt 6)
           (store_after small_tree)).
  - repeat constructor.
  - vm_compute. reflexivity.
Defined.
